(** * AnalogMouseControl: the gamepad-to-pointer control loop of [main.py]

    A shallow embedding of [GamepadController] and of the pure shaping
    functions it calls, followed by the properties of the control loop.

    Numbers.  The program computes with Python [float]s, which are IEEE 754
    binary64 values; they are embedded as Rocq's primitive [float]s, whose
    operations are the same binary64 operations (round to nearest, ties to
    even).  The few Python [int]s that meet a float ([0], [1], [2], the
    default [max_speed] [20] and [5]) are written as the float of the same
    value: Python converts the [int] operand of a mixed operation to
    [float], which is exact for these values, and its mixed comparisons
    agree with the comparison of the converted values.

    Collaborators.  [mouse_move], [mouse_click], [mouse_scroll],
    [time.sleep], [logging] and [threading.Thread(...).start()] are recorded
    as events of an output trace; the joystick is a snapshot that the
    environment supplies at each sampling tick. *)

From stdpp Require Import gmap strings list.
From Stdlib Require Import ZArith Floats Lia.

#[local] Set Warnings "-inexact-float".
#[local] Open Scope Z_scope.

(** ** Exceptions and fallible results *)

Inductive exn : Type :=
  | ZeroDivisionError
  | ValueError
  | OverflowError
  | KeyError (key : string)
  | PygameError.

Inductive result (A : Type) : Type :=
  | Ok (a : A)
  | Raise (e : exn).
Arguments Ok {A} a.
Arguments Raise {A} e.

Definition rbind {A B} (r : result A) (k : A → result B) : result B :=
  match r with
  | Ok a => k a
  | Raise e => Raise e
  end.

Declare Scope result_scope.
Delimit Scope result_scope with res.
Notation "'let*' x ':=' r 'in' k" := (rbind r (fun x => k))
  (at level 10, x name, r at level 100, k at level 200) : result_scope.

(** ** Python's numeric built-ins on binary64 values *)

Module Py.

(** [min(a, b)]: the first argument unless the second is strictly smaller. *)
Definition min (a b : float) : float := if (b <? a)%float then b else a.

(** [max(a, b)]: the first argument unless the second is strictly larger. *)
Definition max (a b : float) : float := if (a <? b)%float then b else a.

(** [a / b] on floats raises when the divisor compares equal to zero. *)
Definition truediv (a b : float) : result float :=
  if (b =? 0)%float then Raise ZeroDivisionError else Ok (a / b)%float.

(** [math.sqrt]: a domain error on negative arguments. *)
Definition math_sqrt (x : float) : result float :=
  if (x <? 0)%float then Raise ValueError else Ok (PrimFloat.sqrt x).

(** [math.copysign(x, y)]: the magnitude of [x] with the sign bit of [y]. *)
Definition math_copysign (x y : float) : float :=
  if get_sign y then (- abs x)%float else abs x.

(** Truth value of a float in a condition: anything but a zero. *)
Definition truthy (x : float) : bool := negb (x =? 0)%float.

(** [int(x)]: truncation toward zero; NaN and the infinities raise. *)
Definition int (x : float) : result Z :=
  match Prim2SF x with
  | S754_zero _ => Ok 0
  | S754_finite s m e => Ok (cond_Zopp s (Z.shiftl (Z.pos m) e))
  | S754_infinity _ => Raise OverflowError
  | S754_nan => Raise ValueError
  end.

End Py.

(** ** Configuration *)

Record GamepadConfig : Type := {
  left_max_speed : float;
  left_acceleration : float;
  left_deadzone : float;
  right_max_speed : float;
  right_acceleration : float;
  right_deadzone : float;
  refresh_rate : float;
  left_click_button : Z;
  right_click_button : Z;
  scroll_up_button : Z;
  scroll_down_button : Z;
  left_x_axis : Z;
  left_y_axis : Z;
  right_x_axis : Z;
  right_y_axis : Z;
  restart_delay : float
}.

Definition default_config : GamepadConfig := {|
  left_max_speed := 20;
  left_acceleration := 0.4;
  left_deadzone := 0;
  right_max_speed := 5;
  right_acceleration := 0.1;
  right_deadzone := 0;
  refresh_rate := 0.005;
  left_click_button := 7;
  right_click_button := 6;
  scroll_up_button := 4;
  scroll_down_button := 5;
  left_x_axis := 0;
  left_y_axis := 1;
  right_x_axis := 2;
  right_y_axis := 4;
  restart_delay := 0.5
|}.

(** ** The shaping functions *)

Definition _apply_deadzone (value deadzone : float) : result float :=
  if (abs value <=? deadzone)%float then Ok 0%float
  else (let* q := Py.truediv (abs value - deadzone)%float (1 - deadzone)%float in
        Ok (Py.math_copysign q value))%res.

Definition _calculate_motion (x y max_speed acceleration current_speed : float)
  : result ((float * float) * float) :=
  (let* magnitude := Py.math_sqrt (x * x + y * y)%float in
   if (0 <? magnitude)%float then
     let* norm_x := Py.truediv x magnitude in
     let* norm_y := Py.truediv y magnitude in
     let target_speed := Py.min (magnitude * max_speed)%float max_speed in
     let new_speed :=
       if (current_speed <? target_speed)%float
       then Py.min target_speed (current_speed + acceleration)%float
       else Py.max target_speed (current_speed - acceleration * 2)%float in
     Ok ((norm_x * new_speed, norm_y * new_speed)%float, new_speed)
   else Ok ((0, 0)%float, 0%float))%res.

(** ** Controller state, events and the world the methods act on *)

Record GamepadController : Type := {
  config : GamepadConfig;
  running : bool;
  left_motion : float * float;
  right_motion : float * float;
  left_speed : float;
  right_speed : float;
  button_states : gmap string bool;
  scroll_thread_active : gmap string bool
}.

(** The state [__init__] leaves behind (the joystick is the environment's). *)
Definition __init__ (cfg : GamepadConfig) : GamepadController := {|
  config := cfg;
  running := false;
  left_motion := (0, 0)%float;
  right_motion := (0, 0)%float;
  left_speed := 0%float;
  right_speed := 0%float;
  button_states := <["left_click" := false]> (<["right_click" := false]> ∅);
  scroll_thread_active := <["up" := false]> (<["down" := false]> ∅)
|}.

Inductive event : Type :=
  | MouseMove (x y : Z)
  | MouseClick (down : bool) (button : string)
  | MouseScroll (amount : Z)
  | Sleep (seconds : float)
  | LogError (source : string) (e : exn)
  | LogInfo (message : string).

(** Where a [_scroll_thread] activation stands: before its first statement,
    at the loop test with its current [delay], or returned. *)
Inductive scroll_pc : Type :=
  | AtEntry
  | AtLoop (delay : float)
  | Returned.

Record scroll_task : Type := {
  direction : string;
  pc : scroll_pc
}.

Record world : Type := {
  ctl : GamepadController;
  out : list event;
  tasks : list scroll_task
}.

(** One joystick snapshot: what the pygame calls of one tick answer. *)
Record device : Type := {
  pump : result unit;
  get_axis : Z → result float;
  get_button : Z → result bool
}.

(** ** Methods as state transformers that may raise

    A raised exception keeps the mutations and the output made before it,
    as in Python. *)

Definition M (A : Type) : Type := world → result A * world.

Definition ret {A} (a : A) : M A := fun w => (Ok a, w).

Definition bind {A B} (m : M A) (k : A → M B) : M B :=
  fun w =>
    match m w with
    | (Ok a, w') => k a w'
    | (Raise e, w') => (Raise e, w')
    end.

Definition lift {A} (r : result A) : M A := fun w => (r, w).

Definition emit (e : event) : M unit :=
  fun w => (Ok tt, {| ctl := ctl w; out := out w ++ [e]; tasks := tasks w |}).

Definition get : M GamepadController := fun w => (Ok (ctl w), w).

Definition modify (f : GamepadController → GamepadController) : M unit :=
  fun w => (Ok tt, {| ctl := f (ctl w); out := out w; tasks := tasks w |}).

Definition spawn (t : scroll_task) : M unit :=
  fun w => (Ok tt, {| ctl := ctl w; out := out w; tasks := tasks w ++ [t] |}).

Declare Scope M_scope.
Delimit Scope M_scope with M.
Notation "'let*' x ':=' m 'in' k" := (bind m (fun x => k))
  (at level 10, x name, m at level 100, k at level 200) : M_scope.

(** Field updates of the controller object. *)
Definition set_running (b : bool) (c : GamepadController) : GamepadController :=
  {| config := config c; running := b;
     left_motion := left_motion c; right_motion := right_motion c;
     left_speed := left_speed c; right_speed := right_speed c;
     button_states := button_states c;
     scroll_thread_active := scroll_thread_active c |}.

Definition set_left (mv : float * float) (s : float) (c : GamepadController)
  : GamepadController :=
  {| config := config c; running := running c;
     left_motion := mv; right_motion := right_motion c;
     left_speed := s; right_speed := right_speed c;
     button_states := button_states c;
     scroll_thread_active := scroll_thread_active c |}.

Definition set_right (mv : float * float) (s : float) (c : GamepadController)
  : GamepadController :=
  {| config := config c; running := running c;
     left_motion := left_motion c; right_motion := mv;
     left_speed := left_speed c; right_speed := s;
     button_states := button_states c;
     scroll_thread_active := scroll_thread_active c |}.

Definition set_button_states (m : gmap string bool) (c : GamepadController)
  : GamepadController :=
  {| config := config c; running := running c;
     left_motion := left_motion c; right_motion := right_motion c;
     left_speed := left_speed c; right_speed := right_speed c;
     button_states := m;
     scroll_thread_active := scroll_thread_active c |}.

Definition set_scroll_thread_active (m : gmap string bool) (c : GamepadController)
  : GamepadController :=
  {| config := config c; running := running c;
     left_motion := left_motion c; right_motion := right_motion c;
     left_speed := left_speed c; right_speed := right_speed c;
     button_states := button_states c;
     scroll_thread_active := m |}.

(** [d[key]]: a missing key raises. *)
Definition getitem (d : gmap string bool) (key : string) : result bool :=
  match d !! key with
  | Some b => Ok b
  | None => Raise (KeyError key)
  end.

(** [time.sleep]: negative and NaN lengths are refused.  (The interpreter
    also refuses lengths beyond the range of its clock, some 9.2e9 seconds;
    the threshold is the interpreter's, and no property below rests on it.) *)
Definition time_sleep (seconds : float) : M unit :=
  if (0 <=? seconds)%float then emit (Sleep seconds) else lift (Raise ValueError).

Definition mouse_move (x y : Z) : M unit := emit (MouseMove x y).
Definition mouse_click (down : bool) (button : string) : M unit :=
  emit (MouseClick down button).
Definition mouse_scroll (amount : Z) : M unit := emit (MouseScroll amount).

(** [stop]: every key of [scroll_thread_active] is rebound to [False]. *)
Definition stop : M unit :=
  (let* _ := modify (set_running false) in
   let* _ := modify (fun c => set_scroll_thread_active
                      ((fun _ => false) <$> scroll_thread_active c) c) in
   emit (LogInfo "Gamepad control stopped"))%M.

Definition _read_analog_inputs (dev : device) : M unit :=
  (let* c := get in
   let cfg := config c in
   let* vlx := lift (get_axis dev (left_x_axis cfg)) in
   let* lx := lift (_apply_deadzone vlx (left_deadzone cfg)) in
   let* vly := lift (get_axis dev (left_y_axis cfg)) in
   let* ly := lift (_apply_deadzone vly (left_deadzone cfg)) in
   let* l := lift (_calculate_motion lx ly (left_max_speed cfg)
               (left_acceleration cfg) (left_speed c)) in
   let* _ := modify (set_left (fst l) (snd l)) in
   let* c := get in
   let* vrx := lift (get_axis dev (right_x_axis cfg)) in
   let* rx := lift (_apply_deadzone vrx (right_deadzone cfg)) in
   let* vry := lift (get_axis dev (right_y_axis cfg)) in
   let* ry := lift (_apply_deadzone vry (right_deadzone cfg)) in
   let* r := lift (_calculate_motion rx ry (right_max_speed cfg)
               (right_acceleration cfg) (right_speed c)) in
   modify (set_right (fst r) (snd r)))%M.

(** The [button] argument of [mouse_click]:
    ['left' if key == 'left_click' else 'right']. *)
Definition click_name (key : string) : string :=
  if String.eqb key "left_click" then "left" else "right".

(** One pass of the [for key, button in [...]] loop of [_handle_buttons]. *)
Definition handle_button (dev : device) (key : string) (button : Z) : M unit :=
  (let* current := lift (get_button dev button) in
   let* c := get in
   let* stored := lift (getitem (button_states c) key) in
   if negb (Bool.eqb current stored) then
     let* _ := mouse_click current (click_name key) in
     modify (fun c => set_button_states (<[key := current]> (button_states c)) c)
   else ret tt)%M.

(** The list the loop runs over is built, from the configuration, before
    its first pass. *)
Definition _handle_buttons (dev : device) : M unit :=
  (let* c := get in
   let left := left_click_button (config c) in
   let right := right_click_button (config c) in
   let* _ := handle_button dev "left_click" left in
   handle_button dev "right_click" right)%M.

(** One of the two [if ... elif ...] statements of [_handle_scroll]. *)
Definition handle_scroll_direction (pressed : bool) (dir : string) : M unit :=
  (let* c := get in
   let* active := lift (getitem (scroll_thread_active c) dir) in
   if pressed && negb active then
     spawn {| direction := dir; pc := AtEntry |}
   else if negb pressed && active then
     modify (fun c => set_scroll_thread_active
                        (<[dir := false]> (scroll_thread_active c)) c)
   else ret tt)%M.

Definition _handle_scroll (dev : device) : M unit :=
  (let* c := get in
   let* up := lift (get_button dev (scroll_up_button (config c))) in
   let* down := lift (get_button dev (scroll_down_button (config c))) in
   let* _ := handle_scroll_direction up "up" in
   handle_scroll_direction down "down")%M.

(** The body of the [try] of [_input_listener]. *)
Definition input_listener_body (dev : device) : M unit :=
  (let* _ := lift (pump dev) in
   let* _ := _read_analog_inputs dev in
   let* _ := _handle_buttons dev in
   let* _ := _handle_scroll dev in
   let* c := get in
   time_sleep (refresh_rate (config c)))%M.

(** The body of the [try] of [_mouse_mover]. *)
Definition mouse_mover_body : M unit :=
  (let* c := get in
   let total_x := (fst (left_motion c) + fst (right_motion c))%float in
   let total_y := (snd (left_motion c) + snd (right_motion c))%float in
   let* _ := (if Py.truthy total_x || Py.truthy total_y then
                let* ix := lift (Py.int total_x) in
                let* iy := lift (Py.int total_y) in
                mouse_move ix iy
              else ret tt) in
   time_sleep (refresh_rate (config c)))%M.

(** What one pass through a [while self.running: try ... except] loop leaves:
    the loop goes on, or the thread has returned. *)
Inductive loop_status : Type := Continue | Break.

Definition loop_iteration (source : string) (body : M unit) (w : world)
  : loop_status * world :=
  if running (ctl w) then
    match body w with
    | (Ok _, w') => (Continue, w')
    | (Raise e, w') =>
        (Break, snd ((let* _ := emit (LogError source e) in stop)%M w'))
    end
  else (Break, w).

Definition input_listener_iteration (dev : device) : world → loop_status * world :=
  loop_iteration "input listener" (input_listener_body dev).

Definition mouse_mover_iteration : world → loop_status * world :=
  loop_iteration "mouse mover" mouse_mover_body.

(** [_input_listener] run on the snapshots the joystick gives, one a tick. *)
Fixpoint _input_listener (devs : list device) (w : world) : world :=
  match devs with
  | [] => w
  | dev :: devs' =>
      match input_listener_iteration dev w with
      | (Continue, w') => _input_listener devs' w'
      | (Break, w') => w'
      end
  end.

(** [_mouse_mover] run for at most [n] iterations. *)
Fixpoint _mouse_mover (n : nat) (w : world) : world :=
  match n with
  | O => w
  | S n' =>
      match mouse_mover_iteration w with
      | (Continue, w') => _mouse_mover n' w'
      | (Break, w') => w'
      end
  end.

(** The argument of [mouse_scroll]: [120 if direction == 'up' else -120]. *)
Definition scroll_amount (dir : string) : Z :=
  if String.eqb dir "up" then 120 else -120.

(** ** [_scroll_thread], statement by statement

    [AtEntry]: [self.scroll_thread_active[direction] = True; delay = 0.12].
    [AtLoop delay]: the loop test and, when it holds, one whole iteration. *)
Definition scroll_thread_step (t : scroll_task) : M scroll_task :=
  match pc t with
  | AtEntry =>
      (let* _ := modify (fun c => set_scroll_thread_active
                          (<[direction t := true]> (scroll_thread_active c)) c) in
       ret {| direction := direction t; pc := AtLoop 0.12 |})%M
  | AtLoop delay =>
      (let* c := get in
       let* active := lift (getitem (scroll_thread_active c) (direction t)) in
       if active then
         let* _ := mouse_scroll (scroll_amount (direction t)) in
         let* _ := time_sleep delay in
         ret {| direction := direction t;
                pc := AtLoop (Py.max 0.02 (delay * 0.9)%float) |}
       else ret {| direction := direction t; pc := Returned |})%M
  | Returned => ret t
  end.

(** The delay a repeater sleeps for in its [k]-th iteration (from 0). *)
Fixpoint scroll_delay (k : nat) : float :=
  match k with
  | O => 0.12%float
  | S k' => Py.max 0.02 (scroll_delay k' * 0.9)%float
  end.

(** ** The controller's threads under an explicit schedule

    [start] dispatches the two loops; a scheduler action lets one thread run
    one loop iteration (or one [_scroll_thread] step).  A thread whose loop
    left through [break], or whose test failed, has returned. *)

Record system : Type := {
  sw : world;
  listener_alive : bool;
  mover_alive : bool
}.

Inductive action : Type :=
  | ListenerTick (dev : device)
  | MoverTick
  | TaskStep (i : nat).

Definition is_continue (s : loop_status) : bool :=
  match s with Continue => true | Break => false end.

Definition start (sys : system) : system :=
  if running (ctl (sw sys)) then sys
  else {| sw := snd ((let* _ := modify (set_running true) in
                      emit (LogInfo "Gamepad control started"))%M (sw sys));
          listener_alive := true;
          mover_alive := true |}.

Definition set_task (i : nat) (t : scroll_task) (w : world) : world :=
  {| ctl := ctl w; out := out w; tasks := <[i := t]> (tasks w) |}.

Definition step (a : action) (sys : system) : system :=
  match a with
  | ListenerTick dev =>
      if listener_alive sys then
        let r := input_listener_iteration dev (sw sys) in
        {| sw := snd r; listener_alive := is_continue (fst r);
           mover_alive := mover_alive sys |}
      else sys
  | MoverTick =>
      if mover_alive sys then
        let r := mouse_mover_iteration (sw sys) in
        {| sw := snd r; listener_alive := listener_alive sys;
           mover_alive := is_continue (fst r) |}
      else sys
  | TaskStep i =>
      match tasks (sw sys) !! i with
      | Some t =>
          let r := scroll_thread_step t (sw sys) in
          let t' := match fst r with
                    | Ok t' => t'
                    | Raise _ => {| direction := direction t; pc := Returned |}
                    end in
          {| sw := set_task i t' (snd r);
             listener_alive := listener_alive sys;
             mover_alive := mover_alive sys |}
      | None => sys
      end
  end.

Definition run (sched : list action) (sys : system) : system :=
  foldl (fun s a => step a s) sys sched.

(** A task is live once it has passed its entry and not yet returned. *)
Definition in_loop (t : scroll_task) : bool :=
  match pc t with AtLoop _ => true | _ => false end.

Definition live_tasks (dir : string) (w : world) : nat :=
  length (filter (fun t => String.eqb (direction t) dir && in_loop t = true) (tasks w)).

(** ** Observations on the output trace *)

Definition is_move (e : event) : bool :=
  match e with MouseMove _ _ => true | _ => false end.

Definition is_click (down : bool) (button : string) (e : event) : bool :=
  match e with
  | MouseClick d b => Bool.eqb d down && String.eqb b button
  | _ => false
  end.

Definition is_scroll (e : event) : bool :=
  match e with MouseScroll _ => true | _ => false end.

Definition count (p : event → bool) (evs : list event) : nat :=
  length (List.filter p evs).

(** What a computation adds to the trace of [w]. *)
Definition emitted {A} (m : M A) (w : world) : list event :=
  drop (length (out w)) (out (snd (m w))).

(** The buttons polled once per snapshot, as the sampling loop does. *)
Fixpoint poll_buttons (devs : list device) : M unit :=
  match devs with
  | [] => ret tt
  | dev :: devs' => (let* _ := _handle_buttons dev in poll_buttons devs')%M
  end.

(** A repeater left alone for [n] steps. *)
Fixpoint scroll_thread_steps (n : nat) (t : scroll_task) : M scroll_task :=
  match n with
  | O => ret t
  | S n' => (let* t' := scroll_thread_step t in scroll_thread_steps n' t')%M
  end.

(** [_scroll_thread(direction)] from its first statement through [k]
    iterations of its loop, nothing else running meanwhile. *)
Definition _scroll_thread (direction : string) (k : nat) : M scroll_task :=
  scroll_thread_steps (S k) {| direction := direction; pc := AtEntry |}.

(** The velocity curve applied tick after tick to the same stick position;
    the speeds it persists, oldest first. *)
Fixpoint speeds (n : nat) (x y max_speed acceleration s : float) : list float :=
  match n with
  | O => []
  | S n' =>
      match _calculate_motion x y max_speed acceleration s with
      | Ok (_, s') => s' :: speeds n' x y max_speed acceleration s'
      | Raise _ => []
      end
  end.

(** The speed persisted after the ticks of a list of stick positions. *)
Fixpoint speed_after (inputs : list (float * float))
    (max_speed acceleration s : float) : result float :=
  match inputs with
  | [] => Ok s
  | (x, y) :: rest =>
      (let* r := _calculate_motion x y max_speed acceleration s in
       speed_after rest max_speed acceleration (snd r))%res
  end.

Fixpoint nondecreasing (l : list float) : bool :=
  match l with
  | a :: (b :: _) as tl => (a <=? b)%float && nondecreasing tl
  | _ => true
  end.

(** The click button a key of [button_states] stands for. *)
Definition key_button (cfg : GamepadConfig) (key : string) : Z :=
  if String.eqb key "left_click" then left_click_button cfg
  else right_click_button cfg.

(** A snapshot in which the button of [key] reads [b] and both click buttons
    answer. *)
Definition reads (cfg : GamepadConfig) (key : string) (b : bool) (dev : device) : Prop :=
  get_button dev (key_button cfg key) = Ok b ∧
  (∃ l, get_button dev (left_click_button cfg) = Ok l) ∧
  (∃ r, get_button dev (right_click_button cfg) = Ok r).

(** The clicks one pass of the edge detector emits for one button. *)
Definition click_events (current stored : bool) (name : string) : list event :=
  if Bool.eqb current stored then [] else [MouseClick current name].

(** What a repeater left alone emits in its first [k] iterations. *)
Definition scroll_trace (dir : string) (k : nat) : list event :=
  flat_map (fun i => [MouseScroll (scroll_amount dir); Sleep (scroll_delay i)])
           (seq 0 k).

Definition set_out (evs : list event) (w : world) : world :=
  {| ctl := ctl w; out := evs; tasks := tasks w |}.

Definition set_ctl (c : GamepadController) (w : world) : world :=
  {| ctl := c; out := out w; tasks := tasks w |}.

(** ** The emission loop's decision *)

Definition total_x (c : GamepadController) : float :=
  (fst (left_motion c) + fst (right_motion c))%float.

Definition total_y (c : GamepadController) : float :=
  (snd (left_motion c) + snd (right_motion c))%float.

(** The pointer moves one pass of the emission loop's body emits. *)
Definition moves (w : world) : list event :=
  List.filter is_move (emitted mouse_mover_body w).

(** The emission rule read literally from the specification: a move is
    emitted exactly when the truncated sum is not (0, 0), and it carries the
    truncated sum. *)
Definition emits_iff_truncated_nonzero (w : world) : Prop :=
  ∀ ix iy,
    Py.int (total_x (ctl w)) = Ok ix →
    Py.int (total_y (ctl w)) = Ok iy →
    (moves w ≠ [] ↔ (ix ≠ 0 ∨ iy ≠ 0)) ∧
    (moves w ≠ [] → moves w = [MouseMove ix iy]).

(** ** Concrete controllers and snapshots *)

(** A joystick whose calls all answer: [axes] and [buttons] by index. *)
Definition snapshot (axes : Z → float) (buttons : Z → bool) : device :=
  {| pump := Ok tt;
     get_axis := fun i => Ok (axes i);
     get_button := fun i => Ok (buttons i) |}.

Definition centred : Z → float := fun _ => 0%float.
Definition released : Z → bool := fun _ => false.
Definition only (i : Z) : Z → bool := fun j => Z.eqb j i.
Definition full_on (i : Z) : Z → float := fun j => if Z.eqb j i then 1%float else 0%float.

(** A joystick that has been unplugged. *)
Definition unplugged : device :=
  {| pump := Raise PygameError;
     get_axis := fun _ => Raise PygameError;
     get_button := fun _ => Raise PygameError |}.

Definition constructed (cfg : GamepadConfig) : world :=
  {| ctl := __init__ cfg; out := []; tasks := [] |}.

(** The controller after [__init__] and [start]. *)
Definition booted (cfg : GamepadConfig) : system :=
  start {| sw := constructed cfg; listener_alive := false; mover_alive := false |}.

(** The world a failed loop iteration leaves: the error logged, then [stop]. *)
Definition failed (source : string) (e : exn) (w : world) : world :=
  snd ((let* _ := emit (LogError source e) in stop)%M w).

Definition is_loop_tick (a : action) : bool :=
  match a with TaskStep _ => false | _ => true end.

(** The world after the first sampling tick of a freshly started default
    controller whose left stick is pushed fully along its x axis. *)
Definition after_first_tick : world :=
  snd (input_listener_iteration (snapshot (full_on 0) released)
         (sw (booted default_config))).

(** A default controller whose scroll-up button is held: the schedule in
    which the sampling loop runs twice before the repeater dispatched at the
    first tick has executed its first statement, after which both repeaters
    run two steps each. *)
Definition scroll_up_held : device := snapshot centred (only 4).

Definition two_ticks_first : list action :=
  [ListenerTick scroll_up_held; ListenerTick scroll_up_held].

Definition then_both_repeaters : list action :=
  [TaskStep 0; TaskStep 1; TaskStep 0; TaskStep 1].

(** The schedule in which the repeater's first statement runs between the
    two ticks. *)
Definition entry_between_ticks : list action :=
  [ListenerTick scroll_up_held; TaskStep 0; ListenerTick scroll_up_held].

(** A started default controller whose "up" repeater has run its first
    statement: [running] and the "up" flag are both true. *)
Definition scrolling_up : world :=
  snd (scroll_thread_step {| direction := "up"; pc := AtEntry |}
         (sw (booted default_config))).

(** A configuration whose tick interval [time.sleep] refuses. *)
Definition negative_refresh : GamepadConfig :=
  {| left_max_speed := 20; left_acceleration := 0.4; left_deadzone := 0;
     right_max_speed := 5; right_acceleration := 0.1; right_deadzone := 0;
     refresh_rate := (-1)%float;
     left_click_button := 7; right_click_button := 6;
     scroll_up_button := 4; scroll_down_button := 5;
     left_x_axis := 0; left_y_axis := 1; right_x_axis := 2; right_y_axis := 4;
     restart_delay := 0.5 |}.

(** ** Binary64 values by sign and by rank

    [SFrank] sends a value other than NaN to a triple whose lexicographic
    order is the order of the values; [round_result] is the last step of
    [binary_round_aux]. *)

Definition SFsigned (s : bool) (x : spec_float) : bool :=
  match x with
  | S754_zero s' | S754_infinity s' | S754_finite s' _ _ => Bool.eqb s s'
  | S754_nan => false
  end.

Definition SFsigned_or_nan (s : bool) (x : spec_float) : bool :=
  match x with
  | S754_zero s' | S754_infinity s' | S754_finite s' _ _ => Bool.eqb s s'
  | S754_nan => true
  end.

Definition round_result (sx : bool) (m e : Z) : spec_float :=
  match m with
  | Z0 => S754_zero sx
  | Zpos p => if e <=? emax - prec then S754_finite sx p e else S754_infinity sx
  | Zneg _ => S754_nan
  end.

Definition SFrank (x : spec_float) : option (Z * Z * Z) :=
  match x with
  | S754_nan => None
  | S754_zero _ => Some (0, 0, 0)
  | S754_infinity false => Some (2, 0, 0)
  | S754_infinity true => Some (-2, 0, 0)
  | S754_finite false m e => Some (1, e, Zpos m)
  | S754_finite true m e => Some (-1, - e, - Zpos m)
  end.

Definition lex_lt (a b : Z * Z * Z) : Prop :=
  a.1.1 < b.1.1 \/
  (a.1.1 = b.1.1 /\ (a.1.2 < b.1.2 \/ (a.1.2 = b.1.2 /\ a.2 < b.2))).

Definition lex_le (a b : Z * Z * Z) : Prop :=
  a.1.1 < b.1.1 \/
  (a.1.1 = b.1.1 /\ (a.1.2 < b.1.2 \/ (a.1.2 = b.1.2 /\ a.2 <= b.2))).

Definition lex_eq (a b : Z * Z * Z) : Prop :=
  a.1.1 = b.1.1 /\ a.1.2 = b.1.2 /\ a.2 = b.2.

Definition rank_rel (R : Z * Z * Z -> Z * Z * Z -> Prop) (x y : spec_float) : Prop :=
  match SFrank x, SFrank y with
  | Some a, Some b => R a b
  | _, _ => False
  end.

Definition SFpos (x : spec_float) : bool :=
  match x with
  | S754_finite false _ _ | S754_infinity false => true
  | _ => false
  end.

Definition SFnonneg (x : spec_float) : bool :=
  match x with
  | S754_zero _ | S754_finite false _ _ | S754_infinity false => true
  | _ => false
  end.

(** ** The arithmetic of [_calculate_motion], named *)

Definition magnitude (x y : float) : float := PrimFloat.sqrt (x * x + y * y)%float.

Definition target_speed (m max_speed : float) : float :=
  Py.min (m * max_speed)%float max_speed.

Definition new_speed (m max_speed acceleration current_speed : float) : float :=
  if (current_speed <? target_speed m max_speed)%float
  then Py.min (target_speed m max_speed) (current_speed + acceleration)%float
  else Py.max (target_speed m max_speed) (current_speed - acceleration * 2)%float.

(** ** The shaping rules in the specification's words *)

(** [sign(v)]: -1, 0 or 1. *)
Definition sign (v : float) : float :=
  if (v <? 0)%float then (-1)%float
  else if (0 <? v)%float then 1%float else 0%float.

(** "0 if |v| <= d; otherwise sign(v) * (|v| - d) / (1 - d)". *)
Definition deadzone_shaped (v d : float) : float :=
  if (abs v <=? d)%float then 0%float
  else (sign v * (abs v - d) / (1 - d))%float.

(** "If m == 0: velocity (0,0), speed 0.  Else target = min(m*M, M); if
    target > s then new_s = min(target, s + a) else new_s = max(target,
    s - 2a); velocity = unit vector scaled by new_s". *)
Definition velocity_curve (x y M a s : float) : (float * float) * float :=
  let m := PrimFloat.sqrt (x * x + y * y)%float in
  if (m =? 0)%float then ((0, 0)%float, 0%float)
  else
    let target := Py.min (m * M)%float M in
    let new_s :=
      if (s <? target)%float then Py.min target (s + a)%float
      else Py.max target (s - 2 * a)%float in
    ((x / m * new_s, y / m * new_s)%float, new_s).

(** Both persisted speeds lie between 0 and the stick's maximum speed. *)
Definition speeds_bounded (c : GamepadController) : Prop :=
  (0 <=? left_speed c)%float = true ∧
  (left_speed c <=? left_max_speed (config c))%float = true ∧
  (0 <=? right_speed c)%float = true ∧
  (right_speed c <=? right_max_speed (config c))%float = true.

(** Maximum speeds and acceleration steps are positive. *)
Definition positive_config (cfg : GamepadConfig) : Prop :=
  (0 <? left_max_speed cfg)%float = true ∧
  (0 <? left_acceleration cfg)%float = true ∧
  (0 <? right_max_speed cfg)%float = true ∧
  (0 <? right_acceleration cfg)%float = true.

(** The invariant of a controller built from [cfg]. *)
Definition speed_invariant (cfg : GamepadConfig) (c : GamepadController) : Prop :=
  config c = cfg ∧ speeds_bounded c.

(** [m] keeps the controller within [P], whether it returns or raises, and
    what it returns satisfies [Q]. *)
Definition keeps {A} (P : GamepadController → Prop) (m : M A) (Q : A → Prop) : Prop :=
  ∀ w, P (ctl w) →
       P (ctl (snd (m w))) ∧ ∀ a, fst (m w) = Ok a → Q a.

(** * Properties *)

(** ** Binary64 arithmetic

    What the proofs below need of the rounding of [SpecFloat]: the sign of a
    result, that a difference of non-negative numbers does not exceed the
    minuend, and that a difference [x - y] with [y < x] is positive. *)

Lemma pow2_succ k : 0 <= k -> 2 ^ (k + 1) = 2 * 2 ^ k.
Proof. intros. rewrite Z.pow_add_r by lia. lia. Qed.

Lemma digits2_pos_bounds p :
  2 ^ (Zpos (digits2_pos p) - 1) <= Zpos p < 2 ^ Zpos (digits2_pos p).
Proof.
  induction p as [p IH|p IH|]; cbn [digits2_pos].
  - rewrite Pos2Z.inj_succ.
    replace (Z.succ (Z.pos (digits2_pos p)) - 1) with (Z.pos (digits2_pos p) - 1 + 1) by lia.
    unfold Z.succ. rewrite !pow2_succ by lia. lia.
  - rewrite Pos2Z.inj_succ.
    replace (Z.succ (Z.pos (digits2_pos p)) - 1) with (Z.pos (digits2_pos p) - 1 + 1) by lia.
    unfold Z.succ. rewrite !pow2_succ by lia. lia.
  - cbn. lia.
Qed.

Lemma iter_pos_nat {A} (f : A -> A) p x :
  iter_pos f p x = Nat.iter (Pos.to_nat p) f x.
Proof.
  revert x. induction p as [p IH|p IH|]; intros x; cbn [iter_pos].
  - rewrite !IH. rewrite Pos2Nat.inj_xI.
    replace (2 * Pos.to_nat p)%nat with (Pos.to_nat p + Pos.to_nat p)%nat by lia.
    by rewrite Nat.iter_succ_r, Nat.iter_add.
  - rewrite !IH. rewrite Pos2Nat.inj_xO.
    replace (2 * Pos.to_nat p)%nat with (Pos.to_nat p + Pos.to_nat p)%nat by lia.
    by rewrite Nat.iter_add.
  - reflexivity.
Qed.

Lemma shr_1_nonneg m r s :
  0 <= m ->
  shr_1 {| shr_m := m; shr_r := r; shr_s := s |} =
  {| shr_m := m / 2; shr_r := Z.odd m; shr_s := r || s |}.
Proof.
  intros Hm. destruct m as [|[p|p|]|p]; try lia; cbn [shr_1 Z.odd].
  - reflexivity.
  - f_equal. apply Z.div_unique with 1; lia.
  - f_equal. apply Z.div_unique with 0; lia.
  - reflexivity.
Qed.

(** The record after [n] one-bit shifts of a non-negative mantissa. *)
Lemma shr_iter_nonneg n : forall m r s,
  0 <= m ->
  exists r' s',
    Nat.iter n shr_1 {| shr_m := m; shr_r := r; shr_s := s |} =
    {| shr_m := m / 2 ^ Z.of_nat n; shr_r := r'; shr_s := s' |} /\
    (r || s = false -> (r' || s' = false <-> m mod 2 ^ Z.of_nat n = 0)).
Proof.
  induction n as [|n IH]; intros m r s Hm.
  - exists r, s. cbn [Nat.iter]. split.
    + by rewrite Z.div_1_r.
    + intros H. rewrite Z.mod_1_r. tauto.
  - destruct (IH m r s Hm) as (r' & s' & Heq & Hloc).
    rewrite Nat.iter_succ, Heq.
    assert (0 < 2 ^ Z.of_nat n) as Hp by (apply Z.pow_pos_nonneg; lia).
    assert (0 <= m / 2 ^ Z.of_nat n) as Hq by (apply Z.div_pos; lia).
    rewrite shr_1_nonneg by done.
    eexists _, _. split.
    + f_equal. rewrite Nat2Z.inj_succ. unfold Z.succ.
      rewrite pow2_succ by lia. rewrite Z.mul_comm.
      rewrite Z.div_div by lia. reflexivity.
    + intros Hrs. specialize (Hloc Hrs).
      rewrite Nat2Z.inj_succ. unfold Z.succ. rewrite pow2_succ by lia.
      rewrite (Z.mul_comm 2). rewrite Z.rem_mul_r by lia.
      rewrite Zmod_odd.
      pose proof (Z.mod_pos_bound m (2 ^ Z.of_nat n) Hp) as Hrem.
      destruct (Z.odd (m / 2 ^ Z.of_nat n)), (r' || s'); cbn [orb];
        split; intros H; try done; try lia.
Qed.

Lemma shr_nonneg m r s e n :
  0 <= m ->
  exists r' s',
    shr {| shr_m := m; shr_r := r; shr_s := s |} e n =
    ({| shr_m := m / 2 ^ Z.max 0 n; shr_r := r'; shr_s := s' |}, e + Z.max 0 n) /\
    (r || s = false -> (r' || s' = false <-> m mod 2 ^ Z.max 0 n = 0)).
Proof.
  intros Hm. destruct n as [|p|p]; cbn [shr].
  - exists r, s. rewrite Z.max_l by lia. rewrite Z.div_1_r, Z.add_0_r, Z.mod_1_r.
    split; [done|tauto].
  - rewrite iter_pos_nat.
    destruct (shr_iter_nonneg (Pos.to_nat p) m r s Hm) as (r' & s' & Heq & Hloc).
    rewrite positive_nat_Z in *. exists r', s'. rewrite Z.max_r by lia.
    by rewrite Heq.
  - exists r, s. rewrite Z.max_l by lia. rewrite Z.div_1_r, Z.add_0_r, Z.mod_1_r.
    split; [done|tauto].
Qed.

Lemma shr_fexp_exact m e :
  0 <= m ->
  exists r' s',
    shr_fexp prec emax m e loc_Exact =
    ({| shr_m := m / 2 ^ Z.max 0 (fexp prec emax (Zdigits2 m + e) - e);
        shr_r := r'; shr_s := s' |},
     e + Z.max 0 (fexp prec emax (Zdigits2 m + e) - e)) /\
    (r' || s' = false <-> m mod 2 ^ Z.max 0 (fexp prec emax (Zdigits2 m + e) - e) = 0).
Proof.
  intros Hm. unfold shr_fexp. cbn [shr_record_of_loc].
  destruct (shr_nonneg m false false e (fexp prec emax (Zdigits2 m + e) - e) Hm)
    as (r' & s' & Heq & Hloc).
  exists r', s'. split; [done|]. by apply Hloc.
Qed.

Lemma shr_fexp_nonneg m e l :
  0 <= m -> 0 <= shr_m (fst (shr_fexp prec emax m e l)).
Proof.
  intros Hm. unfold shr_fexp.
  assert (exists r s, shr_record_of_loc m l = {| shr_m := m; shr_r := r; shr_s := s |})
    as (r & s & ->) by (destruct l as [|[]]; cbn; eauto).
  destruct (shr_nonneg m r s e (fexp prec emax (Zdigits2 m + e) - e) Hm)
    as (r' & s' & -> & _). cbn.
  apply Z.div_pos; [done|]. apply Z.pow_pos_nonneg; lia.
Qed.

Lemma round_nearest_even_cases m r s :
  let m' := round_nearest_even m
              (loc_of_shr_record {| shr_m := m; shr_r := r; shr_s := s |}) in
  m' = m \/ (m' = m + 1 /\ r || s = true).
Proof.
  destruct r, s; cbn; try (by left); try (by right).
  destruct (Z.even m); [by left|by right].
Qed.

Lemma round_nearest_even_nonneg m l : 0 <= m -> 0 <= round_nearest_even m l.
Proof.
  intros Hm. destruct l as [|[]]; cbn; try lia.
  destruct (Z.even m); lia.
Qed.

Lemma binary_round_aux_signed_or_nan sx mx ex lx :
  SFsigned_or_nan sx (binary_round_aux prec emax sx mx ex lx) = true.
Proof.
  unfold binary_round_aux.
  destruct (shr_fexp prec emax mx ex lx) as [mrs' e'].
  destruct (shr_fexp prec emax _ e' loc_Exact) as [mrs'' e''].
  destruct (shr_m mrs''); cbn; [| |done].
  - apply eqb_reflx.
  - destruct (_ <=? _); cbn; apply eqb_reflx.
Qed.

Lemma binary_round_aux_signed sx mx ex lx :
  0 <= mx -> SFsigned sx (binary_round_aux prec emax sx mx ex lx) = true.
Proof.
  intros Hm. unfold binary_round_aux.
  pose proof (shr_fexp_nonneg mx ex lx Hm) as H1.
  destruct (shr_fexp prec emax mx ex lx) as [mrs' e']. cbn [fst] in H1.
  pose proof (shr_fexp_nonneg _ e' loc_Exact
                (round_nearest_even_nonneg _ (loc_of_shr_record mrs') H1)) as H2.
  destruct (shr_fexp prec emax _ e' loc_Exact) as [mrs'' e'']. cbn [fst] in H2.
  destruct (shr_m mrs''); cbn; [| |lia].
  - apply eqb_reflx.
  - destruct (_ <=? _); cbn; apply eqb_reflx.
Qed.

Lemma binary_round_aux_exact sx mx ex :
  0 <= mx ->
  exists m2,
    let n := Z.max 0 (fexp prec emax (Zdigits2 mx + ex) - ex) in
    let e1 := ex + n in
    let n2 := Z.max 0 (fexp prec emax (Zdigits2 m2 + e1) - e1) in
    (m2 = mx / 2 ^ n \/ (m2 = mx / 2 ^ n + 1 /\ mx mod 2 ^ n <> 0)) /\
    binary_round_aux prec emax sx mx ex loc_Exact =
    round_result sx (m2 / 2 ^ n2) (e1 + n2).
Proof.
  intros Hm. unfold binary_round_aux.
  destruct (shr_fexp_exact mx ex Hm) as (r & s & -> & Hloc).
  set (n := Z.max 0 (fexp prec emax (Zdigits2 mx + ex) - ex)) in *.
  cbn [shr_m].
  set (m2 := round_nearest_even _ _).
  exists m2. cbn zeta.
  assert (0 <= mx / 2 ^ n) as Hq
    by (apply Z.div_pos; [done|apply Z.pow_pos_nonneg; lia]).
  assert (m2 = mx / 2 ^ n \/ (m2 = mx / 2 ^ n + 1 /\ mx mod 2 ^ n <> 0)) as Hm2.
  { destruct (round_nearest_even_cases (mx / 2 ^ n) r s) as [H|[H Hrs]];
      [by left|right]. split; [done|].
    intros H0. apply Hloc in H0. congruence. }
  split; [done|].
  assert (0 <= m2) as Hm2' by lia.
  destruct (shr_fexp_exact m2 (ex + n) Hm2') as (r2 & s2 & -> & _).
  reflexivity.
Qed.

Lemma fexp_eq e : fexp prec emax e = Z.max (e - 53) (-1074).
Proof. reflexivity. Qed.

Lemma iter_xO_pow m d : Zpos (Pos.iter xO m d) = Zpos m * 2 ^ Zpos d.
Proof.
  change (Pos.iter xO m d) with (shift_pos d m).
  rewrite shift_pos_correct. change (Z.pow_pos 2 d) with (2 ^ Zpos d). lia.
Qed.

Lemma digits2_pos_unique m d :
  2 ^ (d - 1) <= Zpos m < 2 ^ d -> Zpos (digits2_pos m) = d.
Proof.
  intros [Hlo Hhi]. pose proof (digits2_pos_bounds m) as [Hlo' Hhi'].
  assert (0 < d).
  { destruct (Z_lt_le_dec 0 d); [done|].
    destruct (Z.eq_dec d 0) as [->|]; [cbn in Hhi; lia|].
    rewrite Z.pow_neg_r in Hhi by lia. lia. }
  assert (Zpos (digits2_pos m) - 1 < d)
    by (apply (Z.pow_lt_mono_r_iff 2); lia).
  assert (d - 1 < Zpos (digits2_pos m))
    by (apply (Z.pow_lt_mono_r_iff 2); lia).
  lia.
Qed.

Lemma digits2_mul_pow m k p :
  0 <= k -> Zpos p = Zpos m * 2 ^ k ->
  Zpos (digits2_pos p) = Zpos (digits2_pos m) + k.
Proof.
  intros Hk Hp. apply digits2_pos_unique. rewrite Hp.
  pose proof (digits2_pos_bounds m) as [Hlo Hhi].
  assert (0 < 2 ^ k) by (apply Z.pow_pos_nonneg; lia).
  replace (Zpos (digits2_pos m) + k - 1) with (Zpos (digits2_pos m) - 1 + k) by lia.
  rewrite !Z.pow_add_r by lia. nia.
Qed.

(** [a <= b * 2^k] bounds the number of digits of [a]. *)
Lemma digits2_le_mul_pow a b k :
  0 <= k -> Zpos a <= Zpos b * 2 ^ k ->
  Zpos (digits2_pos a) <= Zpos (digits2_pos b) + k.
Proof.
  intros Hk Hle.
  pose proof (digits2_pos_bounds a) as [Hlo _].
  pose proof (digits2_pos_bounds b) as [_ Hhi].
  assert (0 < 2 ^ k) by (apply Z.pow_pos_nonneg; lia).
  assert (2 ^ (Zpos (digits2_pos a) - 1) < 2 ^ (Zpos (digits2_pos b) + k)).
  { rewrite Z.pow_add_r by lia. nia. }
  assert (Zpos (digits2_pos a) - 1 < Zpos (digits2_pos b) + k)
    by (apply (Z.pow_lt_mono_r_iff 2); lia).
  lia.
Qed.

Lemma shl_align_spec mx ex ex' :
  snd (shl_align mx ex ex') = Z.min ex ex' /\
  Zpos (fst (shl_align mx ex ex')) = Zpos mx * 2 ^ (ex - Z.min ex ex').
Proof.
  unfold shl_align. destruct (ex' - ex) as [|d|d] eqn:Hd; cbn [fst snd].
  - rewrite Z.min_l by lia. rewrite Z.sub_diag. cbn. lia.
  - rewrite Z.min_l by lia. rewrite Z.sub_diag. cbn. lia.
  - rewrite Z.min_r by lia. rewrite iter_xO_pow.
    replace (ex - ex') with (Zpos d) by lia. done.
Qed.

(** ** Order: [SFcompare] compares ranks *)

Lemma SFcompare_rank x y :
  match SFcompare x y with
  | Some Lt => rank_rel lex_lt x y
  | Some Eq => rank_rel eq x y
  | Some Gt => rank_rel lex_lt y x
  | None => SFrank x = None \/ SFrank y = None
  end.
Proof.
  unfold rank_rel, lex_lt.
  destruct x as [[]|[]| |[] mx ex], y as [[]|[]| |[] my ey]; cbn;
    try done; try lia; try (by left); try (by right).
  - change (PosDef.Pos.compare_cont Eq mx my) with (Pos.compare mx my).
    destruct (Z.compare_spec ex ey), (Pos.compare_spec mx my); cbn; subst;
      try done; lia.
  - change (PosDef.Pos.compare_cont Eq mx my) with (Pos.compare mx my).
    destruct (Z.compare_spec ex ey), (Pos.compare_spec mx my); cbn; subst;
      try done; lia.
Qed.

Lemma lex_lt_irrefl a : ~ lex_lt a a.
Proof. unfold lex_lt. lia. Qed.

Lemma lex_lt_asym a b : lex_lt a b -> ~ lex_lt b a.
Proof. unfold lex_lt. lia. Qed.

Lemma SFltb_rank x y : SFltb x y = true <-> rank_rel lex_lt x y.
Proof.
  pose proof (SFcompare_rank x y) as H. unfold SFltb.
  unfold rank_rel in *.
  destruct (SFcompare x y) as [[]|], (SFrank x) as [a|], (SFrank y) as [b|];
    split; intros H'; try done; try (by destruct H).
  - subst. by apply lex_lt_irrefl in H'.
  - by apply lex_lt_asym in H'.
Qed.

Lemma lex_le_iff a b : lex_le a b <-> lex_lt a b \/ a = b.
Proof.
  destruct a as [[a1 a2] a3], b as [[b1 b2] b3]. unfold lex_le, lex_lt. cbn.
  split.
  - intros H. destruct (Z.eq_dec a1 b1) as [->|]; [|lia].
    destruct (Z.eq_dec a2 b2) as [->|]; [|lia].
    destruct (Z.eq_dec a3 b3) as [->|]; [by right|lia].
  - intros [H|[= -> -> ->]]; lia.
Qed.

Lemma SFleb_rank x y : SFleb x y = true <-> rank_rel lex_le x y.
Proof.
  pose proof (SFcompare_rank x y) as H. unfold SFleb.
  unfold rank_rel in *.
  destruct (SFcompare x y) as [[]|], (SFrank x) as [a|], (SFrank y) as [b|];
    rewrite ?lex_le_iff;
    split; intros H'; try done; try (by destruct H); try (by left); try (by right).
  destruct H' as [H'| ->].
  - by apply lex_lt_asym in H'.
  - by apply lex_lt_irrefl in H.
Qed.

Lemma lex_eq_iff a b : lex_eq a b <-> a = b.
Proof.
  destruct a as [[a1 a2] a3], b as [[b1 b2] b3]. unfold lex_eq. cbn.
  split; [intros (-> & -> & ->); done|intros [= -> -> ->]; done].
Qed.

Lemma SFeqb_rank x y : SFeqb x y = true <-> rank_rel lex_eq x y.
Proof.
  pose proof (SFcompare_rank x y) as H. unfold SFeqb.
  unfold rank_rel in *.
  destruct (SFcompare x y) as [[]|], (SFrank x) as [a|], (SFrank y) as [b|];
    rewrite ?lex_eq_iff;
    split; intros H'; try done; try (by destruct H); subst;
    by apply lex_lt_irrefl in H.
Qed.

Lemma bounded_facts m e :
  bounded prec emax m e = true ->
  Z.max (Zpos (digits2_pos m) + e - 53) (-1074) = e /\ e <= 971.
Proof.
  unfold bounded, canonical_mantissa. rewrite fexp_eq.
  intros [H1 H2]%andb_prop. apply Z.eqb_eq in H1. apply Z.leb_le in H2.
  change (emax - prec) with 971 in H2. done.
Qed.

(** The second normalisation of [binary_round_aux]: a mantissa of at most
    [prec] digits at an exponent of the format stays; [2^prec] is halved. *)
Lemma renormalise_small m2 F :
  -1074 <= F -> 0 < m2 < 2 ^ 53 ->
  Z.max 0 (fexp prec emax (Zdigits2 m2 + F) - F) = 0.
Proof.
  intros HF [Hlo Hhi]. destruct m2 as [|p|p]; try lia. cbn [Zdigits2].
  pose proof (digits2_pos_bounds p) as [Hd _].
  assert (Zpos (digits2_pos p) - 1 < 53)
    by (apply (Z.pow_lt_mono_r_iff 2); lia).
  rewrite fexp_eq. lia.
Qed.

Lemma renormalise_carry F :
  -1074 <= F ->
  Z.max 0 (fexp prec emax (Zdigits2 (2 ^ 53) + F) - F) = 1.
Proof.
  intros HF. rewrite fexp_eq.
  replace (Zdigits2 (2 ^ 53)) with 54 by (by vm_compute). lia.
Qed.

Lemma binary_round_spec sx m e :
  let D := Zpos (digits2_pos m) + e in
  let F := fexp prec emax D in
  let ez := Z.min e F in
  exists m2,
    let m1 := (Zpos m * 2 ^ (e - ez)) / 2 ^ (F - ez) in
    let n2 := Z.max 0 (fexp prec emax (Zdigits2 m2 + F) - F) in
    (m2 = m1 \/ (m2 = m1 + 1 /\ (Zpos m * 2 ^ (e - ez)) mod 2 ^ (F - ez) <> 0)) /\
    binary_round prec emax sx m e = round_result sx (m2 / 2 ^ n2) (F + n2).
Proof.
  cbn zeta. unfold binary_round.
  pose proof (shl_align_spec m e (fexp prec emax (Zpos (digits2_pos m) + e)))
    as [Hez Hmz].
  destruct (shl_align m e _) as [mz ez]. cbn [fst snd] in *.
  set (F := fexp prec emax (Zpos (digits2_pos m) + e)) in *.
  assert (Zpos (digits2_pos mz) + ez = Zpos (digits2_pos m) + e) as HD.
  { rewrite (digits2_mul_pow m (e - Z.min e F) mz) by (done || lia). lia. }
  destruct (binary_round_aux_exact sx (Zpos mz) ez) as (m2 & Hm2 & Heq); [lia|].
  cbn zeta in *. cbn [Zdigits2] in *. rewrite HD in *. fold F in Hm2, Heq.
  assert (Z.max 0 (F - ez) = F - ez) as Hn by lia.
  rewrite Hn in *. replace (ez + (F - ez)) with F in * by lia.
  exists m2. rewrite <- Hmz, <- Hez. done.
Qed.

Lemma SFleb_finite_pos p e my ey :
  e < ey \/ (e = ey /\ Zpos p <= Zpos my) ->
  SFleb (S754_finite false p e) (S754_finite false my ey) = true.
Proof.
  intros H. apply SFleb_rank. unfold rank_rel, lex_le. cbn. lia.
Qed.

(** Rounding a positive value that lies at or below a number of the format
    gives at most that number. *)
Lemma binary_round_le m e my ey :
  bounded prec emax my ey = true ->
  e <= ey -> Zpos m <= Zpos my * 2 ^ (ey - e) ->
  SFleb (binary_round prec emax false m e) (S754_finite false my ey) = true.
Proof.
  intros Hb He Hle.
  destruct (bounded_facts my ey Hb) as [Hcan Hemax].
  destruct (binary_round_spec false m e) as (m2 & Hm2 & ->). cbn zeta in *.
  set (D := Zpos (digits2_pos m) + e) in *.
  set (F := fexp prec emax D) in *.
  set (ez := Z.min e F) in *.
  assert (-1074 <= F /\ D - 53 <= F) as [HFlo HFD]
    by (unfold F; rewrite fexp_eq; lia).
  pose proof (digits2_le_mul_pow m my (ey - e) ltac:(lia) Hle) as Hdig.
  assert (F <= ey) as HFey by (unfold F, D; rewrite fexp_eq; lia).
  assert (ez <= e /\ ez <= F) as [Heze HezF] by (unfold ez; lia).
  set (A := Zpos m * 2 ^ (e - ez)) in *.
  set (P := 2 ^ (F - ez)) in *.
  set (B := Zpos my * 2 ^ (ey - F)).
  assert (0 < P) as HP by (apply Z.pow_pos_nonneg; lia).
  assert (0 < 2 ^ (e - ez)) as HP1 by (apply Z.pow_pos_nonneg; lia).
  assert (0 < 2 ^ (ey - F)) as HP2 by (apply Z.pow_pos_nonneg; lia).
  assert (0 < A) as HA by (unfold A; lia).
  assert (A <= P * B) as HAB.
  { unfold A, P, B.
    replace (2 ^ (F - ez) * (Zpos my * 2 ^ (ey - F)))
      with (Zpos my * 2 ^ (ey - e) * 2 ^ (e - ez)).
    - apply Z.mul_le_mono_nonneg_r; lia.
    - rewrite <- Z.mul_assoc, <- Z.pow_add_r by lia.
      rewrite (Z.mul_comm (2 ^ (F - ez))), <- Z.mul_assoc, <- Z.pow_add_r by lia.
      do 2 f_equal. lia. }
  assert (0 <= A / P <= B) as [Hm1lo Hm1B].
  { split; [apply Z.div_pos; lia|]. apply Z.div_le_upper_bound; lia. }
  assert (A / P < 2 ^ 53) as Hm1hi.
  { apply Z.div_lt_upper_bound; [done|].
    pose proof (digits2_pos_bounds m) as [_ Hhi].
    assert (A < 2 ^ (D - ez)).
    { unfold A, D.
      replace (Zpos (digits2_pos m) + e - ez) with (Zpos (digits2_pos m) + (e - ez)) by lia.
      rewrite Z.pow_add_r by lia. nia. }
    assert (2 ^ (D - ez) <= P * 2 ^ 53).
    { unfold P. rewrite <- Z.pow_add_r by lia. apply Z.pow_le_mono_r; lia. }
    lia. }
  assert (0 <= m2 <= B /\ m2 <= 2 ^ 53) as [[Hm2lo Hm2B] Hm2hi].
  { destruct Hm2 as [->|[-> Hmod]]; [lia|].
    assert (A / P <> B); [|lia].
    intros HeqB. apply Hmod.
    pose proof (Z.mul_div_le A P HP) as Hmd. rewrite HeqB in Hmd.
    assert (A = B * P) as -> by lia. apply Z_mod_mult. }
  clearbody A P. clear Hm2.
  destruct (Z.eq_dec m2 0) as [->|Hm2nz].
  { rewrite Z.div_0_l; [done|].
    apply Z.pow_nonzero; lia. }
  destruct (Z.eq_dec m2 (2 ^ 53)) as [->|Hm2ne].
  - rewrite renormalise_carry by done.
    change (2 ^ 53 / 2 ^ 1) with (Zpos 4503599627370496).
    pose proof (digits2_pos_bounds my) as [Hmylo Hmyhi].
    assert (Zpos my < 2 ^ 53).
    { assert (2 ^ Zpos (digits2_pos my) <= 2 ^ 53)
        by (apply Z.pow_le_mono_r; lia). lia. }
    assert (F < ey).
    { destruct (Z.eq_dec F ey) as [Heq|]; [|lia].
      unfold B in Hm2B. rewrite Heq, Z.sub_diag in Hm2B. cbn in Hm2B. lia. }
    cbn [round_result].
    replace (F + 1 <=? emax - prec) with true
      by (symmetry; apply Z.leb_le; change (emax - prec) with 971; lia).
    apply SFleb_finite_pos.
    destruct (Z.eq_dec (F + 1) ey) as [Heq|]; [right|left; lia].
    split; [done|].
    assert (Zpos (digits2_pos my) = 53) as Hd53 by lia.
    rewrite Hd53 in Hmylo. exact Hmylo.
  - rewrite renormalise_small by lia.
    rewrite Z.div_1_r, Z.add_0_r.
    destruct m2 as [|p|p]; try lia. cbn [round_result].
    replace (F <=? emax - prec) with true
      by (symmetry; apply Z.leb_le; change (emax - prec) with 971; lia).
    apply SFleb_finite_pos.
    destruct (Z.eq_dec F ey) as [Heq|]; [right|left; lia].
    split; [done|].
    unfold B in Hm2B. rewrite Heq, Z.sub_diag in Hm2B. cbn in Hm2B. lia.
Qed.

Lemma round_result_pos m e : 0 < m -> SFpos (round_result false m e) = true.
Proof.
  intros Hm. destruct m as [|p|p]; try lia. cbn.
  by destruct (_ <=? _).
Qed.

(** No underflow to zero from an exponent of the format. *)
Lemma binary_round_pos m e :
  -1074 <= e -> SFpos (binary_round prec emax false m e) = true.
Proof.
  intros He.
  destruct (binary_round_spec false m e) as (m2 & Hm2 & ->). cbn zeta in *.
  set (D := Zpos (digits2_pos m) + e) in *.
  set (F := fexp prec emax D) in *.
  assert (-1074 <= F /\ D - 53 <= F /\ (F = -1074 \/ F = D - 53))
    as (HFlo & HFD & HFcase) by (unfold F; rewrite fexp_eq; lia).
  pose proof (digits2_pos_bounds m) as [Hmlo Hmhi].
  assert (1 <= Zpos m * 2 ^ (e - Z.min e F) / 2 ^ (F - Z.min e F)) as Hm1.
  { destruct (Z_le_gt_dec F e) as [Hle|Hgt].
    - rewrite Z.min_r by lia. rewrite Z.sub_diag. cbn [Z.pow]. rewrite Z.div_1_r.
      assert (0 < 2 ^ (e - F)) by (apply Z.pow_pos_nonneg; lia). lia.
    - rewrite Z.min_l by lia. rewrite Z.sub_diag. cbn [Z.pow]. rewrite Z.mul_1_r.
      assert (F - e = Zpos (digits2_pos m) - 53) as -> by (unfold D in *; lia).
      apply Z.div_le_lower_bound.
      + apply Z.pow_pos_nonneg; unfold D in *; lia.
      + rewrite Z.mul_1_r.
        etransitivity; [|exact Hmlo]. apply Z.pow_le_mono_r; lia. }
  assert (1 <= m2) as Hm2pos by lia. clear Hm2 Hm1.
  apply round_result_pos.
  destruct m2 as [|p|p]; try lia. cbn [Zdigits2].
  pose proof (digits2_pos_bounds p) as [Hplo Hphi].
  apply Z.div_str_pos. split; [apply Z.pow_pos_nonneg; lia|].
  etransitivity; [|exact Hplo]. apply Z.pow_le_mono_r; [lia|].
  rewrite fexp_eq. lia.
Qed.

Lemma binary_round_signed s m e :
  SFsigned s (binary_round prec emax s m e) = true.
Proof.
  unfold binary_round. destruct (shl_align _ _ _) as [mz ez].
  apply binary_round_aux_signed. lia.
Qed.

Lemma SFsigned_nonneg x : SFsigned false x = true -> SFnonneg x = true.
Proof. by destruct x as [[]|[]| |[]]. Qed.

Lemma SFpos_nonneg x : SFpos x = true -> SFnonneg x = true.
Proof. by destruct x as [[]|[]| |[]]. Qed.

Lemma SFsigned_weaken s x : SFsigned s x = true -> SFsigned_or_nan s x = true.
Proof. by destruct x. Qed.

(** *** Products *)

Lemma SFmul_pos x y :
  SFpos x = true -> SFpos y = true -> SFsigned false (SFmul prec emax x y) = true.
Proof.
  destruct x as [[]|[]| |[] mx ex], y as [[]|[]| |[] my ey]; try done.
  intros _ _. cbn. apply binary_round_aux_signed. lia.
Qed.

Lemma SFmul_self x :
  SFsigned_or_nan false (SFmul prec emax x x) = true /\
  (SFrank x <> None -> SFsigned false (SFmul prec emax x x) = true).
Proof.
  destruct x as [[]|[]| |[] mx ex]; try done; cbn [SFmul xorb].
  - split; [apply binary_round_aux_signed_or_nan|].
    intros _. apply binary_round_aux_signed. lia.
  - split; [apply binary_round_aux_signed_or_nan|].
    intros _. apply binary_round_aux_signed. lia.
Qed.

(** *** Sums *)

Lemma SFadd_signed x y :
  SFsigned false x = true -> SFsigned false y = true ->
  SFsigned false (SFadd prec emax x y) = true.
Proof.
  destruct x as [[]|[]| |[] mx ex], y as [[]|[]| |[] my ey]; try done.
  intros _ _. cbn [SFadd cond_Zopp]. cbn [Z.add binary_normalize].
  apply binary_round_signed.
Qed.

Lemma SFadd_signed_or_nan x y :
  SFsigned_or_nan false x = true -> SFsigned_or_nan false y = true ->
  SFsigned_or_nan false (SFadd prec emax x y) = true.
Proof.
  destruct x as [[]|[]| |[] mx ex], y as [[]|[]| |[] my ey]; try done.
  intros _ _. cbn [SFadd cond_Zopp]. cbn [Z.add binary_normalize].
  apply SFsigned_weaken, binary_round_signed.
Qed.

Lemma SFadd_nonneg_pos x y :
  SFnonneg x = true -> SFpos y = true -> SFnonneg (SFadd prec emax x y) = true.
Proof.
  destruct x as [[]|[]| |[] mx ex], y as [[]|[]| |[] my ey]; try done.
  intros _ _. cbn [SFadd cond_Zopp]. cbn [Z.add binary_normalize].
  apply SFsigned_nonneg, binary_round_signed.
Qed.

(** *** Square roots *)

Lemma SFsqrt_signed_or_nan x :
  SFsigned_or_nan false x = true -> SFsigned_or_nan false (SFsqrt prec emax x) = true.
Proof.
  destruct x as [[]|[]| |[] mx ex]; try done. intros _. cbn [SFsqrt].
  destruct (SFsqrt_core_binary _ _ _ _) as [[mz ez] lz].
  apply binary_round_aux_signed_or_nan.
Qed.

Lemma SFsqrt_signed x :
  SFsigned false x = true -> SFsigned false (SFsqrt prec emax x) = true.
Proof.
  destruct x as [[]|[]| |[] mx ex]; try done. intros _. cbn [SFsqrt].
  destruct (SFsqrt_core_binary _ _ _ _) as [[mz ez] lz] eqn:Hcore.
  apply binary_round_aux_signed.
  unfold SFsqrt_core_binary in Hcore.
  destruct (Z.sqrtrem _) as [q r] eqn:Hsq.
  injection Hcore as <- _ _.
  match type of Hsq with
  | Z.sqrtrem ?a = _ => pose proof (Z.sqrtrem_sqrt a) as Hs
  end.
  rewrite Hsq in Hs. cbn [fst] in Hs. subst q. apply Z.sqrt_nonneg.
Qed.

(** *** Quotients *)

Lemma SFdiv_signed_or_nan x y :
  SFsigned_or_nan false x = true -> SFsigned_or_nan false y = true ->
  SFsigned_or_nan false (SFdiv prec emax x y) = true.
Proof.
  destruct x as [[]|[]| |[] mx ex], y as [[]|[]| |[] my ey]; try done.
  intros _ _. cbn [SFdiv xorb].
  destruct (SFdiv_core_binary _ _ _ _ _ _) as [[mz ez] lz].
  apply binary_round_aux_signed_or_nan.
Qed.

Lemma binary_round_aux_negb s m e l :
  binary_round_aux prec emax (negb s) m e l =
  SFopp (binary_round_aux prec emax s m e l).
Proof.
  unfold binary_round_aux.
  destruct (shr_fexp prec emax m e l) as [mrs' e'].
  destruct (shr_fexp prec emax _ e' loc_Exact) as [mrs'' e''].
  destruct (shr_m mrs''); cbn [SFopp]; try done.
  by destruct (_ <=? _).
Qed.

Lemma SFdiv_opp_l x y :
  SFdiv prec emax (SFopp x) y = SFopp (SFdiv prec emax x y).
Proof.
  destruct x as [sx|sx| |sx mx ex], y as [sy|sy| |sy my ey]; cbn [SFdiv SFopp];
    rewrite ?negb_xorb_l; try done.
  destruct (SFdiv_core_binary _ _ _ _ _ _) as [[mz ez] lz].
  rewrite <- negb_xorb_l. apply binary_round_aux_negb.
Qed.

Lemma SFabs_signed x : SFsigned_or_nan false x = true -> SFabs x = x.
Proof. by destruct x as [[]|[]| |[] mx ex]. Qed.

(** *** Differences *)

Lemma shl_align_min_l mx ex ey :
  Zpos (fst (shl_align mx ex (Z.min ex ey))) = Zpos mx * 2 ^ (ex - Z.min ex ey).
Proof.
  destruct (shl_align_spec mx ex (Z.min ex ey)) as [_ H].
  rewrite H. do 3 f_equal. lia.
Qed.

Lemma shl_align_min_r my ex ey :
  Zpos (fst (shl_align my ey (Z.min ex ey))) = Zpos my * 2 ^ (ey - Z.min ex ey).
Proof.
  destruct (shl_align_spec my ey (Z.min ex ey)) as [_ H].
  rewrite H. do 3 f_equal. lia.
Qed.

(** Among numbers of the format, the order of ranks is the order of values. *)
Lemma aligned_lt mx ex my ey :
  bounded prec emax mx ex = true -> bounded prec emax my ey = true ->
  ey < ex \/ (ey = ex /\ Zpos my < Zpos mx) ->
  Zpos my * 2 ^ (ey - Z.min ex ey) < Zpos mx * 2 ^ (ex - Z.min ex ey).
Proof.
  intros [Hx _]%bounded_facts [Hy _]%bounded_facts Hlt.
  destruct Hlt as [Hlt|[-> Hlt]].
  - rewrite Z.min_r by lia. rewrite Z.sub_diag. cbn [Z.pow]. rewrite Z.mul_1_r.
    pose proof (digits2_pos_bounds mx) as [Hxlo _].
    pose proof (digits2_pos_bounds my) as [_ Hyhi].
    assert (Zpos (digits2_pos mx) = 53) as Hdx by lia. rewrite Hdx in Hxlo.
    assert (2 ^ Zpos (digits2_pos my) <= 2 ^ 53) by (apply Z.pow_le_mono_r; lia).
    assert (2 ^ 1 <= 2 ^ (ex - ey)) by (apply Z.pow_le_mono_r; lia).
    change (2 ^ 1) with 2 in *. change (2 ^ (53 - 1)) with 4503599627370496 in *.
    change (2 ^ 53) with 9007199254740992 in *. nia.
  - rewrite Z.min_l by lia. rewrite Z.sub_diag. cbn [Z.pow]. lia.
Qed.

(** [x - y] is positive when [0 <= y < x]. *)
Lemma SFsub_pos x y :
  valid_binary x = true -> valid_binary y = true ->
  SFnonneg y = true -> SFltb y x = true ->
  SFpos (SFsub prec emax x y) = true.
Proof.
  intros Hvx Hvy Hy Hlt. apply SFltb_rank in Hlt. unfold rank_rel, lex_lt in Hlt.
  destruct x as [[]|[]| |[] mx ex], y as [[]|[]| |[] my ey];
    try done; cbn in Hlt; try lia.
  cbn [SFsub cond_Zopp]. cbn [valid_binary] in *.
  rewrite shl_align_min_l, shl_align_min_r.
  pose proof (aligned_lt mx ex my ey Hvx Hvy ltac:(lia)) as Hal.
  destruct (bounded_facts _ _ Hvx) as [Hx _].
  destruct (bounded_facts _ _ Hvy) as [Hy' _].
  destruct (Zpos mx * _ - Zpos my * _) as [|p|p] eqn:Hd; try lia.
  cbn [binary_normalize]. apply binary_round_pos. lia.
Qed.

(** [x - y] does not exceed [x] when both are non-negative. *)
Lemma SFsub_le x y :
  valid_binary x = true ->
  SFnonneg x = true -> SFnonneg y = true ->
  SFsub prec emax x y = S754_nan \/ SFleb (SFsub prec emax x y) x = true.
Proof.
  intros Hvx Hx Hy.
  destruct x as [sx|[]| |[] mx ex], y as [sy|[]| |[] my ey];
    try done; try (by left); try (by right).
  - right. by destruct sx, sy.
  - right. cbn. apply SFleb_finite_pos. lia.
  - right. cbn [SFsub cond_Zopp]. cbn [valid_binary] in *.
    rewrite shl_align_min_l, shl_align_min_r.
    assert (0 < 2 ^ (ey - Z.min ex ey)) by (apply Z.pow_pos_nonneg; lia).
    destruct (Zpos mx * _ - Zpos my * _) as [|p|p] eqn:Hd; cbn [binary_normalize].
    + done.
    + apply binary_round_le; [done|lia|lia].
    + pose proof (binary_round_signed true p (Z.min ex ey)) as Hs.
      by destruct (binary_round _ _ _ _ _) as [[]|[]| |[]].
Qed.

(** *** Multiplying by one and by minus one *)

(** A number of the format, written with [k] more low bits, rounds to
    itself. *)
Lemma binary_round_aux_representable s m e k :
  bounded prec emax m e = true -> 0 <= k ->
  binary_round_aux prec emax s (Zpos m * 2 ^ k) (e - k) loc_Exact =
  S754_finite s m e.
Proof.
  intros Hb Hk. destruct (bounded_facts _ _ Hb) as [Hcan Hmax].
  assert (0 < 2 ^ k) as Hpow by (apply Z.pow_pos_nonneg; lia).
  destruct (Zpos m * 2 ^ k) as [|p|p] eqn:Hp; try lia.
  destruct (binary_round_aux_exact s (Zpos p) (e - k)) as (m2 & Hm2 & ->); [lia|].
  cbn zeta in Hm2 |- *. cbn [Zdigits2] in Hm2 |- *.
  symmetry in Hp.
  assert (Z.max 0 (fexp prec emax (Zpos (digits2_pos p) + (e - k)) - (e - k)) = k)
    as Hn by (rewrite (digits2_mul_pow m k p Hk Hp), fexp_eq; lia).
  rewrite Hn in Hm2 |- *. rewrite Hp in Hm2.
  rewrite Z_div_mult, Z_mod_mult in Hm2 by lia.
  assert (m2 = Zpos m) as -> by (destruct Hm2 as [|[]]; done).
  cbn [Zdigits2]. rewrite fexp_eq.
  replace (e - k + k) with e by lia.
  assert (Z.max 0 (Z.max (Zpos (digits2_pos m) + e - 53) (-1074) - e) = 0)
    as Hn2 by lia.
  rewrite Hn2, Z.div_1_r, Z.add_0_r. cbn [round_result].
  rewrite (proj2 (Z.leb_le e (emax - prec))); [done|].
  change (emax - prec) with 971. lia.
Qed.

Lemma SFmul_one_l s x :
  valid_binary x = true ->
  SFmul prec emax (S754_finite s 4503599627370496 (-52)) x =
  if s then SFopp x else x.
Proof.
  intros Hv. destruct x as [sy|sy| |sy my ey]; cbn [SFmul SFopp].
  - by destruct s, sy.
  - by destruct s, sy.
  - by destruct s.
  - cbn [valid_binary] in Hv.
    replace (Zpos (4503599627370496 * my)) with (Zpos my * 2 ^ 52) by lia.
    replace (-52 + ey) with (ey - 52) by lia.
    rewrite binary_round_aux_representable by (done || lia).
    by destruct s, sy.
Qed.

Lemma SFmul_comm x y : SFmul prec emax x y = SFmul prec emax y x.
Proof.
  destruct x as [sx|sx| |sx mx ex], y as [sy|sy| |sy my ey]; cbn [SFmul];
    rewrite ?(xorb_comm sx sy); try done.
  by rewrite (Pos.mul_comm mx my), (Z.add_comm ex ey).
Qed.

(** ** Primitive floats: comparisons *)

#[local] Open Scope float_scope.

Lemma ltb_rank x y : (x <? y) = true <-> rank_rel lex_lt (Prim2SF x) (Prim2SF y).
Proof. rewrite <- SFltb_rank. by rewrite FloatAxioms.ltb_spec. Qed.

Lemma leb_rank x y : (x <=? y) = true <-> rank_rel lex_le (Prim2SF x) (Prim2SF y).
Proof. rewrite <- SFleb_rank. by rewrite FloatAxioms.leb_spec. Qed.

Lemma eqb_rank x y : (x =? y) = true <-> rank_rel lex_eq (Prim2SF x) (Prim2SF y).
Proof. rewrite <- SFeqb_rank. by rewrite FloatAxioms.eqb_spec. Qed.

Lemma ltb_rank_false x y :
  (x <? y) = false <-> ~ rank_rel lex_lt (Prim2SF x) (Prim2SF y).
Proof. rewrite <- ltb_rank. by destruct (x <? y). Qed.

Lemma leb_rank_false x y :
  (x <=? y) = false <-> ~ rank_rel lex_le (Prim2SF x) (Prim2SF y).
Proof. rewrite <- leb_rank. by destruct (x <=? y). Qed.

Lemma eqb_rank_false x y :
  (x =? y) = false <-> ~ rank_rel lex_eq (Prim2SF x) (Prim2SF y).
Proof. rewrite <- eqb_rank. by destruct (x =? y). Qed.

Lemma SFpos_rank x :
  SFpos x = true <-> rank_rel lex_lt (S754_zero false) x.
Proof.
  unfold rank_rel, lex_lt.
  destruct x as [s|[]| |[] m e]; cbn; split; intros H; try done; lia.
Qed.

Lemma SFnonneg_rank x :
  SFnonneg x = true <-> rank_rel lex_le (S754_zero false) x.
Proof.
  unfold rank_rel, lex_le.
  destruct x as [s|[]| |[] m e]; cbn; split; intros H; try done; lia.
Qed.

Lemma pos_iff x : (0 <? x) = true <-> SFpos (Prim2SF x) = true.
Proof. rewrite ltb_rank, SFpos_rank. reflexivity. Qed.

Lemma nonneg_iff x : (0 <=? x) = true <-> SFnonneg (Prim2SF x) = true.
Proof. rewrite leb_rank, SFnonneg_rank. reflexivity. Qed.

Lemma Prim2SF_zero : Prim2SF 0 = S754_zero false.
Proof. reflexivity. Qed.

Lemma Prim2SF_one : Prim2SF 1 = S754_finite false 4503599627370496 (-52).
Proof. reflexivity. Qed.

Lemma Prim2SF_neg_one : Prim2SF (-1) = S754_finite true 4503599627370496 (-52).
Proof. reflexivity. Qed.

(** Comparisons of floats as statements on ranks, ready for [lia]. *)
Ltac float_order :=
  repeat match goal with
    | H : (_ <? _)%float = true |- _ => apply ltb_rank in H
    | H : (_ <? _)%float = false |- _ => apply ltb_rank_false in H
    | H : (_ <=? _)%float = true |- _ => apply leb_rank in H
    | H : (_ <=? _)%float = false |- _ => apply leb_rank_false in H
    | H : (_ =? _)%float = true |- _ => apply eqb_rank in H
    | H : (_ =? _)%float = false |- _ => apply eqb_rank_false in H
    | H : SFpos _ = true |- _ => apply SFpos_rank in H
    | H : SFnonneg _ = true |- _ => apply SFnonneg_rank in H
    | |- (_ <? _)%float = true => apply ltb_rank
    | |- (_ <? _)%float = false => apply ltb_rank_false
    | |- (_ <=? _)%float = true => apply leb_rank
    | |- (_ <=? _)%float = false => apply leb_rank_false
    | |- (_ =? _)%float = true => apply eqb_rank
    | |- (_ =? _)%float = false => apply eqb_rank_false
    | |- SFpos _ = true => apply SFpos_rank
    | |- SFnonneg _ = true => apply SFnonneg_rank
    end;
  unfold rank_rel, lex_lt, lex_le, lex_eq in *;
  rewrite ?Prim2SF_zero, ?Prim2SF_one in *; cbn [SFrank] in *;
  repeat match goal with
    | H : context [SFrank ?x] |- _ => destruct (SFrank x) as [[[? ?] ?]|]
    | |- context [SFrank ?x] => destruct (SFrank x) as [[[? ?] ?]|]
    end;
  cbn [fst snd] in *; try done; try lia.

Lemma is_nan_rank x : is_nan x = false <-> SFrank (Prim2SF x) <> None.
Proof.
  unfold is_nan. rewrite negb_false_iff, eqb_rank. unfold rank_rel, lex_eq.
  destruct (SFrank (Prim2SF x)) as [a|]; split; intros H; try done.
Qed.

Lemma SFsigned_rank x : SFsigned false x = true -> SFrank x <> None.
Proof. by destruct x as [[]|[]| |[]]. Qed.

(** ** Primitive floats: signs and bounds of results *)

Lemma fmul_pos x y :
  (0 <? x) = true -> (0 <? y) = true -> (0 <=? x * y) = true.
Proof.
  rewrite !pos_iff, nonneg_iff, mul_spec. intros Hx Hy.
  by apply SFsigned_nonneg, SFmul_pos.
Qed.

Lemma fadd_nonneg_pos x y :
  (0 <=? x) = true -> (0 <? y) = true -> (0 <=? x + y) = true.
Proof.
  rewrite pos_iff, !nonneg_iff, add_spec. apply SFadd_nonneg_pos.
Qed.

Lemma fsub_pos x y :
  (0 <=? y) = true -> (y <? x) = true -> (0 <? x - y) = true.
Proof.
  rewrite pos_iff, nonneg_iff, sub_spec, FloatAxioms.ltb_spec. intros Hy Hlt.
  apply SFsub_pos; try done; apply Prim2SF_valid.
Qed.

Lemma fsub_le x y z :
  (0 <=? x) = true -> (0 <=? y) = true -> (z <? x - y) = true ->
  (x - y <=? x) = true.
Proof.
  rewrite !nonneg_iff. intros Hx Hy Hz.
  rewrite FloatAxioms.leb_spec. rewrite FloatAxioms.ltb_spec in Hz.
  rewrite sub_spec in *. unfold SF64sub in *.
  destruct (SFsub_le (Prim2SF x) (Prim2SF y) (Prim2SF_valid x) Hx Hy) as [Hn|H];
    [|done].
  rewrite Hn in Hz. by destruct (Prim2SF z).
Qed.

Lemma sum_squares_signed_or_nan x y :
  SFsigned_or_nan false (Prim2SF (x * x + y * y)) = true.
Proof.
  rewrite add_spec, !mul_spec.
  apply SFadd_signed_or_nan; apply SFmul_self.
Qed.

Lemma sum_squares_signed x y :
  is_nan x = false -> is_nan y = false ->
  SFsigned false (Prim2SF (x * x + y * y)) = true.
Proof.
  rewrite !is_nan_rank. intros Hx Hy. rewrite add_spec, !mul_spec.
  apply SFadd_signed; by apply SFmul_self.
Qed.

Lemma sum_squares_not_neg x y : (x * x + y * y <? 0) = false.
Proof.
  pose proof (sum_squares_signed_or_nan x y) as H.
  rewrite FloatAxioms.ltb_spec, Prim2SF_zero.
  by destruct (Prim2SF _) as [[]|[]| |[]].
Qed.

Lemma sqrt_signed_or_nan x :
  SFsigned_or_nan false (Prim2SF x) = true ->
  SFsigned_or_nan false (Prim2SF (sqrt x)) = true.
Proof. rewrite sqrt_spec. apply SFsqrt_signed_or_nan. Qed.

Lemma sqrt_signed x :
  SFsigned false (Prim2SF x) = true -> SFsigned false (Prim2SF (sqrt x)) = true.
Proof. rewrite sqrt_spec. apply SFsqrt_signed. Qed.

(** A value whose sign bit is clear is zero, positive or NaN. *)
Lemma signed_or_nan_cases x :
  SFsigned_or_nan false (Prim2SF x) = true ->
  (0 <? x) = true \/
  ((0 <? x) = false /\ (x =? 0) = true) \/
  ((0 <? x) = false /\ (x =? 0) = false /\ is_nan x = true).
Proof.
  intros H. unfold is_nan.
  rewrite !FloatAxioms.ltb_spec, !FloatAxioms.eqb_spec, Prim2SF_zero.
  destruct (Prim2SF x) as [[]|[]| |[]]; try done; cbn; auto.
Qed.

Lemma fdiv_signed_or_nan x y :
  SFsigned_or_nan false (Prim2SF x) = true ->
  SFsigned_or_nan false (Prim2SF y) = true ->
  SFsigned_or_nan false (Prim2SF (x / y)) = true.
Proof. rewrite div_spec. apply SFdiv_signed_or_nan. Qed.

Lemma fdiv_opp_l x y : (- x) / y = - (x / y).
Proof.
  apply Prim2SF_inj. rewrite opp_spec, !div_spec, opp_spec. apply SFdiv_opp_l.
Qed.

Lemma pos_signed x : (0 <? x) = true -> SFsigned false (Prim2SF x) = true.
Proof. rewrite pos_iff. by destruct (Prim2SF x) as [[]|[]| |[]]. Qed.

Lemma fabs_signed x : SFsigned_or_nan false (Prim2SF x) = true -> abs x = x.
Proof.
  intros H. apply Prim2SF_inj. rewrite abs_spec. by apply SFabs_signed.
Qed.

Lemma fmul_one_l x : 1 * x = x.
Proof.
  apply Prim2SF_inj. rewrite mul_spec, Prim2SF_one.
  unfold SF64mul. rewrite SFmul_one_l; [done|apply Prim2SF_valid].
Qed.

Lemma fmul_neg_one_l x : -1 * x = - x.
Proof.
  apply Prim2SF_inj. rewrite mul_spec, opp_spec, Prim2SF_neg_one.
  unfold SF64mul. rewrite SFmul_one_l; [done|apply Prim2SF_valid].
Qed.

Lemma fmul_comm x y : x * y = y * x.
Proof. apply Prim2SF_inj. rewrite !mul_spec. apply SFmul_comm. Qed.

Lemma get_sign_pos x : (0 <? x) = true -> get_sign x = false.
Proof.
  intros H. unfold get_sign, is_zero, zero.
  assert ((x =? 0) = false) as -> by float_order.
  float_order.
Qed.

Lemma get_sign_neg x : (x <? 0) = true -> get_sign x = true.
Proof.
  intros H. unfold get_sign, is_zero, zero.
  assert ((x =? 0) = false) as -> by float_order.
  done.
Qed.

Lemma fabs_pos_cases x :
  (0 <? abs x) = true -> (0 <? x) = true \/ (x <? 0) = true.
Proof.
  rewrite !FloatAxioms.ltb_spec, abs_spec, Prim2SF_zero.
  destruct (Prim2SF x) as [[]|[]| |[]]; cbn; auto.
Qed.

#[local] Close Scope float_scope.


(** ** Running the monad *)

Lemma bind_ok {A B} (m : M A) (k : A → M B) w a w' :
  m w = (Ok a, w') → bind m k w = k a w'.
Proof. intros H. unfold bind. by rewrite H. Qed.

Lemma emitted_app {A} (m : M A) w evs :
  out (snd (m w)) = out w ++ evs → emitted m w = evs.
Proof. intros H. unfold emitted. rewrite H. apply drop_app_length. Qed.

Lemma count_app p l1 l2 : count p (l1 ++ l2) = (count p l1 + count p l2)%nat.
Proof. unfold count. by rewrite List.filter_app, length_app. Qed.

(** ** [stop] *)

Lemma stop_eq w :
  stop w =
  (Ok tt,
   {| ctl := set_scroll_thread_active
               ((fun _ => false) <$> scroll_thread_active (ctl w))
               (set_running false (ctl w));
      out := out w ++ [LogInfo "Gamepad control stopped"];
      tasks := tasks w |}).
Proof. reflexivity. Qed.

Lemma stop_flags w dir :
  scroll_thread_active (ctl (snd (stop w))) !! dir =
  (fun _ => false) <$> (scroll_thread_active (ctl w) !! dir).
Proof. rewrite stop_eq. cbn. apply lookup_fmap. Qed.

(** C9. [stop] returns normally, leaves [running] false and every scroll
    direction's active flag false, and a second [stop] leaves the controller
    exactly as the first did. *)
Theorem C9_stop_idempotent (w : world) :
  let w1 := snd (stop w) in
  let w2 := snd (stop w1) in
  fst (stop w) = Ok tt ∧
  running (ctl w1) = false ∧
  (∀ dir, dir ∈ dom (scroll_thread_active (ctl w)) →
          scroll_thread_active (ctl w1) !! dir = Some false) ∧
  (∀ dir b, scroll_thread_active (ctl w1) !! dir = Some b → b = false) ∧
  ctl w2 = ctl w1.
Proof.
  cbn zeta. split_and!.
  - reflexivity.
  - reflexivity.
  - intros dir Hdir. rewrite stop_flags.
    apply elem_of_dom in Hdir as [b ->]. reflexivity.
  - intros dir b. rewrite stop_flags.
    destruct (scroll_thread_active (ctl w) !! dir); cbn; congruence.
  - rewrite !stop_eq. cbn. unfold set_scroll_thread_active, set_running. cbn.
    f_equal. rewrite <- map_fmap_compose. reflexivity.
Qed.

Lemma C9_witness :
  running (ctl scrolling_up) = true ∧
  scroll_thread_active (ctl scrolling_up) !! "up" = Some true ∧
  running (ctl (snd (stop scrolling_up))) = false ∧
  scroll_thread_active (ctl (snd (stop scrolling_up))) !! "up" = Some false ∧
  scroll_thread_active (ctl (snd (stop scrolling_up))) !! "down" = Some false ∧
  ctl (snd (stop (snd (stop scrolling_up)))) = ctl (snd (stop scrolling_up)).
Proof.
  destruct (C9_stop_idempotent scrolling_up) as (_ & Hrun & Hdom & _ & Hidem).
  split_and!.
  - reflexivity.
  - reflexivity.
  - exact Hrun.
  - apply Hdom. apply elem_of_dom. eexists. reflexivity.
  - apply Hdom. apply elem_of_dom. eexists. reflexivity.
  - exact Hidem.
Defined.

(** C10. [stop] changes nothing but [running] and the values of
    [scroll_thread_active]: the configuration, both motion vectors, both
    speeds, the button edge states, the key set of [scroll_thread_active] and
    the repeater tasks are as before. *)
Theorem C10_stop_frame (w : world) :
  let w1 := snd (stop w) in
  config (ctl w1) = config (ctl w) ∧
  left_motion (ctl w1) = left_motion (ctl w) ∧
  right_motion (ctl w1) = right_motion (ctl w) ∧
  left_speed (ctl w1) = left_speed (ctl w) ∧
  right_speed (ctl w1) = right_speed (ctl w) ∧
  button_states (ctl w1) = button_states (ctl w) ∧
  dom (scroll_thread_active (ctl w1)) = dom (scroll_thread_active (ctl w)) ∧
  tasks w1 = tasks w.
Proof.
  cbn zeta. rewrite stop_eq. cbn. split_and!; try reflexivity.
  apply dom_fmap_L.
Qed.

(** ** The click edge detector *)

Lemma handle_button_eq dev key button w current stored :
  get_button dev button = Ok current →
  button_states (ctl w) !! key = Some stored →
  handle_button dev key button w =
  (Ok tt,
   if Bool.eqb current stored then w
   else {| ctl := set_button_states (<[key := current]> (button_states (ctl w))) (ctl w);
           out := out w ++ [MouseClick current (click_name key)];
           tasks := tasks w |}).
Proof.
  intros Hb Hs. unfold handle_button, bind, lift, get, getitem.
  rewrite Hb, Hs. destruct (Bool.eqb current stored); reflexivity.
Qed.

Lemma _handle_buttons_eq dev w l r sl sr :
  get_button dev (left_click_button (config (ctl w))) = Ok l →
  get_button dev (right_click_button (config (ctl w))) = Ok r →
  button_states (ctl w) !! "left_click" = Some sl →
  button_states (ctl w) !! "right_click" = Some sr →
  ∃ w', _handle_buttons dev w = (Ok tt, w') ∧
        config (ctl w') = config (ctl w) ∧
        button_states (ctl w') !! "left_click" = Some l ∧
        button_states (ctl w') !! "right_click" = Some r ∧
        out w' = out w ++ click_events l sl "left" ++ click_events r sr "right".
Proof.
  intros Hl Hr Hsl Hsr. unfold _handle_buttons.
  rewrite (bind_ok _ _ w (ctl w) w) by reflexivity.
  erewrite bind_ok by (apply handle_button_eq; eassumption).
  unfold click_events.
  destruct (Bool.eqb l sl) eqn:El.
  - apply Bool.eqb_prop in El as ->.
    erewrite handle_button_eq by eassumption.
    destruct (Bool.eqb r sr) eqn:Er.
    + apply Bool.eqb_prop in Er as ->.
      eexists; split_and!; try done. by rewrite app_nil_r.
    + eexists; split_and!; try done; cbn; by simplify_map_eq.
  - set (w1 := {| ctl := _ |}).
    assert (button_states (ctl w1) !! "right_click" = Some sr) as Hsr1
      by (cbn; by simplify_map_eq).
    erewrite handle_button_eq by eassumption.
    destruct (Bool.eqb r sr) eqn:Er.
    + apply Bool.eqb_prop in Er as ->.
      eexists; split_and!; try done; cbn; by simplify_map_eq.
    + eexists; split_and!; try done; cbn; try by simplify_map_eq.
      by rewrite <- app_assoc.
Qed.

Lemma count_click_events_same b name current stored :
  count (is_click b name) (click_events current stored name) =
  if Bool.eqb current stored then 0%nat
  else if Bool.eqb current b then 1%nat else 0%nat.
Proof.
  unfold click_events, count. destruct (Bool.eqb current stored); [done|].
  cbn. rewrite String.eqb_refl. by destruct (Bool.eqb current b).
Qed.

Lemma count_click_events_other b name name' current stored :
  name ≠ name' →
  count (is_click b name) (click_events current stored name') = 0%nat.
Proof.
  intros Hne. unfold click_events, count.
  destruct (Bool.eqb current stored); [done|]. cbn.
  destruct (String.eqb_spec name' name); [congruence|].
  by rewrite andb_false_r.
Qed.

(** What one poll adds for the button of [key] when it reads [current]. *)
Lemma poll_once dev w key current stored :
  key = "left_click" ∨ key = "right_click" →
  reads (config (ctl w)) key current dev →
  button_states (ctl w) !! key = Some stored →
  is_Some (button_states (ctl w) !! "left_click") →
  is_Some (button_states (ctl w) !! "right_click") →
  ∃ w' evs,
    _handle_buttons dev w = (Ok tt, w') ∧
    config (ctl w') = config (ctl w) ∧
    button_states (ctl w') !! key = Some current ∧
    is_Some (button_states (ctl w') !! "left_click") ∧
    is_Some (button_states (ctl w') !! "right_click") ∧
    out w' = out w ++ evs ∧
    ∀ b, count (is_click b (click_name key)) evs =
         if Bool.eqb current stored then 0%nat
         else if Bool.eqb current b then 1%nat else 0%nat.
Proof.
  intros Hkey (Hcur & [l Hl] & [r Hr]) Hst [sl Hsl] [sr Hsr].
  destruct (_handle_buttons_eq dev w l r sl sr Hl Hr Hsl Hsr)
    as (w' & Hrun & Hcfg & Hl' & Hr' & Hout).
  exists w', (click_events l sl "left" ++ click_events r sr "right").
  split_and!; try done.
  - destruct Hkey as [-> | ->]; cbn in Hcur; congruence.
  - intros b. rewrite count_app.
    destruct Hkey as [-> | ->]; cbn in Hcur; cbn [click_name String.eqb].
    + assert (l = current) as -> by congruence.
      assert (sl = stored) as -> by congruence.
      rewrite count_click_events_same, count_click_events_other by done. lia.
    + assert (r = current) as -> by (cbn in Hcur; congruence).
      assert (sr = stored) as -> by congruence.
      rewrite count_click_events_same, count_click_events_other by done. lia.
Qed.

(** While the button stays as stored, polling adds no click of that button. *)
Lemma poll_unchanged key current devs : ∀ w,
  key = "left_click" ∨ key = "right_click" →
  Forall (reads (config (ctl w)) key current) devs →
  button_states (ctl w) !! key = Some current →
  is_Some (button_states (ctl w) !! "left_click") →
  is_Some (button_states (ctl w) !! "right_click") →
  ∃ w' evs,
    poll_buttons devs w = (Ok tt, w') ∧
    config (ctl w') = config (ctl w) ∧
    button_states (ctl w') !! key = Some current ∧
    is_Some (button_states (ctl w') !! "left_click") ∧
    is_Some (button_states (ctl w') !! "right_click") ∧
    out w' = out w ++ evs ∧
    ∀ b, count (is_click b (click_name key)) evs = 0%nat.
Proof.
  induction devs as [|dev devs IH]; intros w Hkey Hall Hst Hl Hr.
  - exists w, []. split_and!; try done. by rewrite app_nil_r.
  - apply Forall_cons in Hall as [Hdev Hall].
    destruct (poll_once dev w key current current Hkey Hdev Hst Hl Hr)
      as (w1 & evs1 & Hrun1 & Hcfg1 & Hst1 & Hl1 & Hr1 & Hout1 & Hcnt1).
    rewrite <- Hcfg1 in Hall.
    destruct (IH w1 Hkey Hall Hst1 Hl1 Hr1)
      as (w2 & evs2 & Hrun2 & Hcfg2 & Hst2 & Hl2 & Hr2 & Hout2 & Hcnt2).
    exists w2, (evs1 ++ evs2). cbn [poll_buttons].
    erewrite bind_ok by exact Hrun1.
    split_and!; try done.
    + congruence.
    + by rewrite Hout2, Hout1, <- app_assoc.
    + intros b. rewrite count_app, Hcnt1, Hcnt2.
      by rewrite Bool.eqb_reflx.
Qed.

(** A change of the reading followed by polls that repeat it: one event of
    the new state, none of the old. *)
Lemma poll_edge key current dev devs w :
  key = "left_click" ∨ key = "right_click" →
  Forall (reads (config (ctl w)) key current) (dev :: devs) →
  button_states (ctl w) !! key = Some (negb current) →
  is_Some (button_states (ctl w) !! "left_click") →
  is_Some (button_states (ctl w) !! "right_click") →
  ∃ w' evs,
    poll_buttons (dev :: devs) w = (Ok tt, w') ∧
    config (ctl w') = config (ctl w) ∧
    button_states (ctl w') !! key = Some current ∧
    is_Some (button_states (ctl w') !! "left_click") ∧
    is_Some (button_states (ctl w') !! "right_click") ∧
    out w' = out w ++ evs ∧
    count (is_click current (click_name key)) evs = 1%nat ∧
    count (is_click (negb current) (click_name key)) evs = 0%nat.
Proof.
  intros Hkey Hall Hst Hl Hr.
  apply Forall_cons in Hall as [Hdev Hall].
  destruct (poll_once dev w key current (negb current) Hkey Hdev Hst Hl Hr)
    as (w1 & evs1 & Hrun1 & Hcfg1 & Hst1 & Hl1 & Hr1 & Hout1 & Hcnt1).
  rewrite <- Hcfg1 in Hall.
  destruct (poll_unchanged key current devs w1 Hkey Hall Hst1 Hl1 Hr1)
    as (w2 & evs2 & Hrun2 & Hcfg2 & Hst2 & Hl2 & Hr2 & Hout2 & Hcnt2).
  exists w2, (evs1 ++ evs2). cbn [poll_buttons].
  erewrite bind_ok by exact Hrun1.
  split_and!; try done.
  - congruence.
  - by rewrite Hout2, Hout1, <- app_assoc.
  - rewrite count_app, Hcnt1, Hcnt2. by destruct current.
  - rewrite count_app, Hcnt1, Hcnt2. by destruct current.
Qed.

(** C6. One pass of the edge detector emits a click exactly when the polled
    state differs from the stored one (down when now pressed, up when now
    released) and rebinds the stored state only then.  Hence a button that
    reads pressed over any non-empty run of polls adds exactly one press and
    no release, and the poll that then reads released adds exactly one
    release and no press. *)
Theorem C6_click_edge_detector :
  (∀ dev key button w current stored,
     get_button dev button = Ok current →
     button_states (ctl w) !! key = Some stored →
     handle_button dev key button w =
     (Ok tt,
      if Bool.eqb current stored then w
      else {| ctl := set_button_states
                       (<[key := current]> (button_states (ctl w))) (ctl w);
              out := out w ++ [MouseClick current (click_name key)];
              tasks := tasks w |})) ∧
  (∀ key devs released w,
     key = "left_click" ∨ key = "right_click" →
     devs ≠ [] →
     Forall (reads (config (ctl w)) key true) devs →
     reads (config (ctl w)) key false released →
     button_states (ctl w) !! key = Some false →
     is_Some (button_states (ctl w) !! "left_click") →
     is_Some (button_states (ctl w) !! "right_click") →
     let held := emitted (poll_buttons devs) w in
     let w' := snd (poll_buttons devs w) in
     let after := emitted (poll_buttons [released]) w' in
     fst (poll_buttons devs w) = Ok tt ∧
     count (is_click true (click_name key)) held = 1%nat ∧
     count (is_click false (click_name key)) held = 0%nat ∧
     fst (poll_buttons [released] w') = Ok tt ∧
     count (is_click false (click_name key)) after = 1%nat ∧
     count (is_click true (click_name key)) after = 0%nat).
Proof.
  split; [exact handle_button_eq|].
  intros key devs released w Hkey Hne Hall Hrel Hst Hl Hr.
  destruct devs as [|dev devs]; [done|].
  destruct (poll_edge key true dev devs w Hkey Hall Hst Hl Hr)
    as (w1 & evs1 & Hrun1 & Hcfg1 & Hst1 & Hl1 & Hr1 & Hout1 & Hp1 & Hr1').
  rewrite <- Hcfg1 in Hrel.
  destruct (poll_edge key false released [] w1 Hkey) as
    (w2 & evs2 & Hrun2 & Hcfg2 & Hst2 & Hl2 & Hr2 & Hout2 & Hp2 & Hr2');
    [by apply Forall_singleton|done..|].
  cbn zeta. rewrite Hrun1. cbn [fst snd]. rewrite Hrun2. cbn [fst snd].
  rewrite (emitted_app _ w evs1) by (by rewrite Hrun1).
  rewrite (emitted_app _ w1 evs2) by (by rewrite Hrun2).
  done.
Qed.

Lemma reads_snapshot cfg key b axes buttons :
  buttons (key_button cfg key) = b →
  reads cfg key b (snapshot axes buttons).
Proof. intros <-. unfold reads. cbn. eauto. Qed.

Lemma C6_witness :
  count (is_click true "left")
    (emitted (poll_buttons (replicate 100 (snapshot centred (only 7))))
       (constructed default_config)) = 1%nat ∧
  count (is_click false "left")
    (emitted (poll_buttons (replicate 100 (snapshot centred (only 7))))
       (constructed default_config)) = 0%nat ∧
  count (is_click false "left")
    (emitted (poll_buttons [snapshot centred released])
       (snd (poll_buttons (replicate 100 (snapshot centred (only 7)))
               (constructed default_config)))) = 1%nat ∧
  count (is_click true "left")
    (emitted (poll_buttons [snapshot centred released])
       (snd (poll_buttons (replicate 100 (snapshot centred (only 7)))
               (constructed default_config)))) = 0%nat.
Proof.
  destruct (proj2 C6_click_edge_detector "left_click"
              (replicate 100 (snapshot centred (only 7)))
              (snapshot centred released)
              (constructed default_config))
    as (_ & H1 & H2 & _ & H3 & H4).
  - left; reflexivity.
  - discriminate.
  - apply Forall_replicate, reads_snapshot. reflexivity.
  - apply reads_snapshot. reflexivity.
  - reflexivity.
  - eexists; reflexivity.
  - eexists; reflexivity.
  - exact (conj H1 (conj H2 (conj H3 H4))).
Defined.

(** ** The scroll repeater *)

Lemma scroll_thread_entry dir w :
  scroll_thread_step {| direction := dir; pc := AtEntry |} w =
  (Ok {| direction := dir; pc := AtLoop 0.12 |},
   set_ctl (set_scroll_thread_active
              (<[dir := true]> (scroll_thread_active (ctl w))) (ctl w)) w).
Proof. reflexivity. Qed.

Lemma scroll_thread_iteration dir delay w :
  scroll_thread_active (ctl w) !! dir = Some true →
  (0 <=? delay)%float = true →
  scroll_thread_step {| direction := dir; pc := AtLoop delay |} w =
  (Ok {| direction := dir; pc := AtLoop (Py.max 0.02 (delay * 0.9)%float) |},
   set_out (out w ++ [MouseScroll (scroll_amount dir); Sleep delay]) w).
Proof.
  intros Hact Hpos. unfold scroll_thread_step, bind, get, lift, getitem. cbn.
  rewrite Hact. unfold time_sleep. rewrite Hpos. cbn.
  by rewrite <- app_assoc.
Qed.

Lemma scroll_thread_exit dir delay w :
  scroll_thread_active (ctl w) !! dir = Some false →
  scroll_thread_step {| direction := dir; pc := AtLoop delay |} w =
  (Ok {| direction := dir; pc := Returned |}, w).
Proof.
  intros Hact. unfold scroll_thread_step, bind, get, lift, getitem. cbn.
  by rewrite Hact.
Qed.

Lemma scroll_delay_floor k : scroll_delay (18 + k) = 0.02%float.
Proof.
  induction k as [|k IH].
  - vm_compute. reflexivity.
  - replace (18 + S k)%nat with (S (18 + k)) by lia.
    cbn [scroll_delay]. rewrite IH. vm_compute. reflexivity.
Qed.

Lemma scroll_delay_cases k :
  (k < 18)%nat ∨ scroll_delay k = 0.02%float.
Proof.
  destruct (le_lt_dec 18 k) as [Hle|Hlt]; [right|by left].
  replace k with (18 + (k - 18))%nat by lia. apply scroll_delay_floor.
Qed.

Lemma scroll_delay_ge_floor k : (0.02 <=? scroll_delay k)%float = true.
Proof.
  destruct (scroll_delay_cases k) as [Hlt | ->]; [|by vm_compute].
  do 18 (destruct k as [|k]; [by vm_compute|]). lia.
Qed.

Lemma scroll_delay_nonneg k : (0 <=? scroll_delay k)%float = true.
Proof.
  destruct (scroll_delay_cases k) as [Hlt | ->]; [|by vm_compute].
  do 18 (destruct k as [|k]; [by vm_compute|]). lia.
Qed.

Lemma scroll_thread_steps_loop dir k : ∀ j w,
  scroll_thread_active (ctl w) !! dir = Some true →
  scroll_thread_steps k {| direction := dir; pc := AtLoop (scroll_delay j) |} w =
  (Ok {| direction := dir; pc := AtLoop (scroll_delay (j + k)) |},
   set_out (out w ++
            flat_map (fun i => [MouseScroll (scroll_amount dir); Sleep (scroll_delay i)])
                     (seq j k)) w).
Proof.
  induction k as [|k IH]; intros j w Hact.
  - cbn. rewrite Nat.add_0_r, app_nil_r. by destruct w.
  - cbn [scroll_thread_steps].
    erewrite bind_ok
      by (apply scroll_thread_iteration; [done|apply scroll_delay_nonneg]).
    change (Py.max 0.02 (scroll_delay j * 0.9)%float) with (scroll_delay (S j)).
    rewrite IH by done. cbn.
    replace (j + S k)%nat with (S (j + k)) by lia.
    unfold set_out. cbn. by rewrite <- app_assoc.
Qed.

(** C7. A repeater starts with delay 0.12; each iteration emits a scroll of
    [scroll_amount] and sleeps for the current delay, the next delay being
    [max(0.02, delay * 0.9)]; so the [k]-th iteration sleeps for
    [scroll_delay k], which is never below 0.02 and is 0.02 from the 18th
    iteration on.  The amount is positive for "up", negative for "down". *)
Theorem C7_scroll_repeater_delay :
  (∀ dir k w,
     _scroll_thread dir k w =
     (Ok {| direction := dir; pc := AtLoop (scroll_delay k) |},
      {| ctl := set_scroll_thread_active
                  (<[dir := true]> (scroll_thread_active (ctl w))) (ctl w);
         out := out w ++ scroll_trace dir k;
         tasks := tasks w |})) ∧
  scroll_delay 0 = 0.12%float ∧
  (∀ k, scroll_delay (S k) = Py.max 0.02 (scroll_delay k * 0.9)%float) ∧
  (∀ k, (0.02 <=? scroll_delay k)%float = true) ∧
  (∀ k, scroll_delay (18 + k) = 0.02%float) ∧
  (scroll_delay 17 =? 0.02)%float = false ∧
  (scroll_amount "up" = 120 ∧ 0 < scroll_amount "up") ∧
  (scroll_amount "down" = -120 ∧ scroll_amount "down" < 0).
Proof.
  split_and!; try done.
  - intros dir k w. unfold _scroll_thread. cbn [scroll_thread_steps].
    rewrite (bind_ok _ _ _ _ _ (scroll_thread_entry dir w)).
    change 0.12%float with (scroll_delay 0).
    rewrite scroll_thread_steps_loop by (cbn; apply lookup_insert_eq).
    reflexivity.
  - apply scroll_delay_ge_floor.
  - apply scroll_delay_floor.
Qed.

(** ** The emission loop *)

Lemma mouse_mover_body_eq w :
  mouse_mover_body w =
  if Py.truthy (total_x (ctl w)) || Py.truthy (total_y (ctl w)) then
    match Py.int (total_x (ctl w)) with
    | Raise e => (Raise e, w)
    | Ok ix =>
        match Py.int (total_y (ctl w)) with
        | Raise e => (Raise e, w)
        | Ok iy => time_sleep (refresh_rate (config (ctl w)))
                     (set_out (out w ++ [MouseMove ix iy]) w)
        end
    end
  else time_sleep (refresh_rate (config (ctl w))) w.
Proof.
  unfold mouse_mover_body, bind, get, lift, total_x, total_y. cbn.
  destruct (_ || _); [|reflexivity].
  destruct (Py.int _) as [ix|e]; [|reflexivity].
  destruct (Py.int _) as [iy|e]; reflexivity.
Qed.

Lemma time_sleep_out r w :
  ∃ evs, out (snd (time_sleep r w)) = out w ++ evs ∧ List.filter is_move evs = [].
Proof.
  unfold time_sleep. destruct (0 <=? r)%float.
  - by exists [Sleep r].
  - exists []. by rewrite app_nil_r.
Qed.

(** C3, as amended.  One pass of the emission loop emits a pointer move
    exactly when the sum of the two velocity vectors has a component that is
    not zero (the test is made on the sum itself, before truncation) and both
    components convert to integers; the move then carries the components
    truncated toward zero, which may both be 0. *)
Theorem C3_emission_rule (w : world) :
  moves w =
  if Py.truthy (total_x (ctl w)) || Py.truthy (total_y (ctl w)) then
    match Py.int (total_x (ctl w)), Py.int (total_y (ctl w)) with
    | Ok ix, Ok iy => [MouseMove ix iy]
    | _, _ => []
    end
  else [].
Proof.
  unfold moves.
  assert (∀ evs, out (snd (mouse_mover_body w)) = out w ++ evs →
                 List.filter is_move (emitted mouse_mover_body w) =
                 List.filter is_move evs) as Hem
    by (intros evs H; by rewrite (emitted_app _ _ _ H)).
  rewrite mouse_mover_body_eq in *.
  destruct (_ || _).
  - destruct (Py.int (total_x _)) as [ix|e].
    + destruct (Py.int (total_y _)) as [iy|e].
      * destruct (time_sleep_out (refresh_rate (config (ctl w)))
                    (set_out (out w ++ [MouseMove ix iy]) w)) as (evs & Hout & Hnone).
        rewrite (Hem ([MouseMove ix iy] ++ evs)).
        -- rewrite List.filter_app, Hnone. reflexivity.
        -- rewrite Hout. cbn. by rewrite <- app_assoc.
      * rewrite (Hem []); [done|]. by rewrite app_nil_r.
    + rewrite (Hem []); [done|]. by rewrite app_nil_r.
  - destruct (time_sleep_out (refresh_rate (config (ctl w))) w) as (evs & Hout & Hnone).
    by rewrite (Hem evs).
Qed.

Example int_truncates :
  Py.int 3.7 = Ok 3 ∧ Py.int (-3.7) = Ok (-3) ∧
  Py.int 0.4 = Ok 0 ∧ Py.int (-0.9) = Ok 0 ∧ Py.int 20 = Ok 20.
Proof. by vm_compute. Qed.

(** C3, as stated, fails.  After the first sampling tick with the left stick
    fully pushed the left velocity is (0.4, 0): the truncated sum is (0, 0),
    yet the emission loop emits the move (0, 0). *)
Lemma C3_counterexample : ¬ emits_iff_truncated_nonzero after_first_tick.
Proof.
  intros H.
  destruct (H 0 0) as [Hiff _]; [by vm_compute..|].
  assert (moves after_first_tick = [MouseMove 0 0]) as Hm by (by vm_compute).
  destruct (proj1 Hiff); [by rewrite Hm|done..].
Qed.

Lemma C3_witness :
  moves after_first_tick = [MouseMove 0 0].
Proof.
  rewrite (C3_emission_rule after_first_tick). by vm_compute.
Defined.

(** ** Starting a scroll repeater *)

Lemma handle_scroll_direction_start dir w :
  scroll_thread_active (ctl w) !! dir = Some false →
  handle_scroll_direction true dir w =
  (Ok tt, {| ctl := ctl w; out := out w;
             tasks := tasks w ++ [{| direction := dir; pc := AtEntry |}] |}).
Proof.
  intros Hact. unfold handle_scroll_direction, bind, get, lift, getitem.
  by rewrite Hact.
Qed.

(** C4 (the code departs from it).  [_handle_scroll] dispatches the repeater
    and leaves [scroll_thread_active] as it was: the flag is set by the
    repeater's own first statement.  With the scroll-up button held, a second
    sampling tick that runs before that statement finds the flag still false
    and dispatches a second repeater for "up"; both then scroll.  When the
    repeater's first statement runs between the two ticks, the second tick
    dispatches nothing. *)
Theorem C4_flag_set_by_repeater :
  (∀ dir w,
     scroll_thread_active (ctl w) !! dir = Some false →
     ctl (snd (handle_scroll_direction true dir w)) = ctl w ∧
     tasks (snd (handle_scroll_direction true dir w)) =
       tasks w ++ [{| direction := dir; pc := AtEntry |}]) ∧
  let sys1 := run [ListenerTick scroll_up_held] (booted default_config) in
  let sys2 := run two_ticks_first (booted default_config) in
  let sys3 := run then_both_repeaters sys2 in
  scroll_thread_active (ctl (sw sys1)) !! "up" = Some false ∧
  tasks (sw sys1) = [{| direction := "up"; pc := AtEntry |}] ∧
  tasks (sw sys2) = [{| direction := "up"; pc := AtEntry |};
                     {| direction := "up"; pc := AtEntry |}] ∧
  live_tasks "up" (sw sys3) = 2%nat ∧
  count is_scroll (out (sw sys3)) = 2%nat ∧
  length (tasks (sw (run entry_between_ticks (booted default_config)))) = 1%nat.
Proof.
  split.
  - intros dir w Hact. by rewrite handle_scroll_direction_start.
  - by vm_compute.
Qed.

(** ** Failing fast *)

Lemma failed_eq source e w :
  failed source e w =
  {| ctl := set_scroll_thread_active
              ((fun _ => false) <$> scroll_thread_active (ctl w))
              (set_running false (ctl w));
     out := out w ++ [LogError source e; LogInfo "Gamepad control stopped"];
     tasks := tasks w |}.
Proof. unfold failed, bind, emit. cbn. by rewrite <- app_assoc. Qed.

Lemma loop_iteration_raise source body w e w' :
  running (ctl w) = true →
  body w = (Raise e, w') →
  loop_iteration source body w = (Break, failed source e w').
Proof. intros Hrun Hbody. unfold loop_iteration. by rewrite Hrun, Hbody. Qed.

Lemma loop_iteration_stopped source body w :
  running (ctl w) = false →
  loop_iteration source body w = (Break, w).
Proof. intros Hrun. unfold loop_iteration. by rewrite Hrun. Qed.

Lemma _input_listener_stopped devs w :
  running (ctl w) = false → _input_listener devs w = w.
Proof.
  intros Hrun. destruct devs as [|dev devs]; [done|]. cbn.
  unfold input_listener_iteration. by rewrite loop_iteration_stopped.
Qed.

Lemma _mouse_mover_stopped n w :
  running (ctl w) = false → _mouse_mover n w = w.
Proof.
  intros Hrun. destruct n as [|n]; [done|]. cbn.
  unfold mouse_mover_iteration. by rewrite loop_iteration_stopped.
Qed.

Lemma step_loop_tick_stopped a sys :
  is_loop_tick a = true →
  running (ctl (sw sys)) = false →
  sw (step a sys) = sw sys.
Proof.
  intros Ha Hrun. destruct a as [dev| |i]; [| |done]; cbn.
  - destruct (listener_alive sys); [|done]. cbn.
    unfold input_listener_iteration. by rewrite loop_iteration_stopped.
  - destruct (mover_alive sys); [|done]. cbn.
    unfold mouse_mover_iteration. by rewrite loop_iteration_stopped.
Qed.

Lemma run_loop_ticks_stopped sched : ∀ sys,
  forallb is_loop_tick sched = true →
  running (ctl (sw sys)) = false →
  sw (run sched sys) = sw sys.
Proof.
  induction sched as [|a sched IH]; intros sys Hall Hrun; [done|].
  cbn in Hall. apply andb_prop in Hall as [Ha Hall].
  cbn. change (foldl _ ?s sched) with (run sched s).
  rewrite IH by (by rewrite ?step_loop_tick_stopped).
  by apply step_loop_tick_stopped.
Qed.

Lemma failed_stopped source e w :
  running (ctl (failed source e w)) = false ∧
  (∀ dir, dir ∈ dom (scroll_thread_active (ctl w)) →
          scroll_thread_active (ctl (failed source e w)) !! dir = Some false) ∧
  (∀ dir b, scroll_thread_active (ctl (failed source e w)) !! dir = Some b →
            b = false) ∧
  out (failed source e w) =
    out w ++ [LogError source e; LogInfo "Gamepad control stopped"].
Proof.
  rewrite failed_eq. cbn. split_and!; try done.
  - intros dir Hdir. rewrite lookup_fmap.
    apply elem_of_dom in Hdir as [b ->]. reflexivity.
  - intros dir b. rewrite lookup_fmap.
    destruct (scroll_thread_active (ctl w) !! dir); cbn; congruence.
Qed.

(** C8. When the body of an iteration of the sampling loop, or of the
    emission loop, raises, the loop logs the error, calls [stop] and leaves:
    the resulting world has [running] false and every scroll flag false, its
    trace ends with the error and the stop message, the rest of that loop's
    iterations never run, and from that world neither loop runs an iteration
    again. *)
Theorem C8_fail_fast :
  (∀ dev devs w e w',
     running (ctl w) = true →
     input_listener_body dev w = (Raise e, w') →
     let wf := _input_listener (dev :: devs) w in
     wf = failed "input listener" e w' ∧
     running (ctl wf) = false ∧
     (∀ dir, dir ∈ dom (scroll_thread_active (ctl w')) →
             scroll_thread_active (ctl wf) !! dir = Some false) ∧
     (∀ dir b, scroll_thread_active (ctl wf) !! dir = Some b → b = false) ∧
     out wf = out w' ++ [LogError "input listener" e;
                         LogInfo "Gamepad control stopped"] ∧
     (∀ devs' n, _input_listener devs' wf = wf ∧ _mouse_mover n wf = wf)) ∧
  (∀ n w e w',
     running (ctl w) = true →
     mouse_mover_body w = (Raise e, w') →
     let wf := _mouse_mover (S n) w in
     wf = failed "mouse mover" e w' ∧
     running (ctl wf) = false ∧
     (∀ dir, dir ∈ dom (scroll_thread_active (ctl w')) →
             scroll_thread_active (ctl wf) !! dir = Some false) ∧
     (∀ dir b, scroll_thread_active (ctl wf) !! dir = Some b → b = false) ∧
     out wf = out w' ++ [LogError "mouse mover" e;
                         LogInfo "Gamepad control stopped"] ∧
     (∀ devs' n', _input_listener devs' wf = wf ∧ _mouse_mover n' wf = wf)) ∧
  (∀ a sys sched,
     is_loop_tick a = true →
     fst (match a with
          | ListenerTick dev => input_listener_body dev (sw sys)
          | _ => mouse_mover_body (sw sys)
          end) ≠ Ok tt →
     running (ctl (sw sys)) = true →
     (match a with ListenerTick _ => listener_alive sys | _ => mover_alive sys end)
       = true →
     forallb is_loop_tick sched = true →
     let sys' := step a sys in
     running (ctl (sw sys')) = false ∧
     (match a with ListenerTick _ => listener_alive sys' | _ => mover_alive sys' end)
       = false ∧
     sw (run sched sys') = sw sys').
Proof.
  split_and!.
  - intros dev devs w e w' Hrun Hbody. cbn zeta. cbn [_input_listener].
    unfold input_listener_iteration.
    rewrite (loop_iteration_raise _ _ _ _ _ Hrun Hbody).
    destruct (failed_stopped "input listener" e w') as (H1 & H2 & H3 & H4).
    split_and!; try done.
    intros devs' n.
    by rewrite _input_listener_stopped, _mouse_mover_stopped.
  - intros n w e w' Hrun Hbody. cbn zeta. cbn [_mouse_mover].
    unfold mouse_mover_iteration.
    rewrite (loop_iteration_raise _ _ _ _ _ Hrun Hbody).
    destruct (failed_stopped "mouse mover" e w') as (H1 & H2 & H3 & H4).
    split_and!; try done.
    intros devs' n'.
    by rewrite _input_listener_stopped, _mouse_mover_stopped.
  - intros a sys sched Ha Hbody Hrun Halive Hsched. cbn zeta.
    assert (running (ctl (sw (step a sys))) = false ∧
            match a with
            | ListenerTick _ => listener_alive (step a sys)
            | _ => mover_alive (step a sys)
            end = false) as [H1 H2].
    { destruct a as [dev| |i]; [| |done]; cbn; rewrite Halive; cbn.
      - unfold input_listener_iteration.
        destruct (input_listener_body dev (sw sys)) as [[[]|e] w'] eqn:Hb; [done|].
        by rewrite (loop_iteration_raise _ _ _ _ _ Hrun Hb).
      - unfold mouse_mover_iteration.
        destruct (mouse_mover_body (sw sys)) as [[[]|e] w'] eqn:Hb; [done|].
        by rewrite (loop_iteration_raise _ _ _ _ _ Hrun Hb). }
    split_and!; try done. by apply run_loop_ticks_stopped.
Qed.

Lemma C8_witness :
  (running (ctl (_input_listener [unplugged; unplugged] (sw (booted default_config))))
     = false ∧
   out (_input_listener [unplugged; unplugged] (sw (booted default_config))) =
     [LogInfo "Gamepad control started";
      LogError "input listener" PygameError;
      LogInfo "Gamepad control stopped"]) ∧
  (running (ctl (_mouse_mover 3 (sw (booted negative_refresh)))) = false ∧
   out (_mouse_mover 3 (sw (booted negative_refresh))) =
     [LogInfo "Gamepad control started";
      LogError "mouse mover" ValueError;
      LogInfo "Gamepad control stopped"]).
Proof.
  destruct C8_fail_fast as (Hl & Hm & _). split.
  - destruct (Hl unplugged [unplugged] (sw (booted default_config))
                PygameError (sw (booted default_config)))
      as (_ & H1 & _ & _ & H2 & _); [reflexivity..|].
    exact (conj H1 H2).
  - destruct (Hm 2%nat (sw (booted negative_refresh))
                ValueError (sw (booted negative_refresh)))
      as (_ & H1 & _ & _ & H2 & _); [reflexivity..|].
    exact (conj H1 H2).
Defined.

(** ** The deadzone *)

#[local] Open Scope float_scope.

Lemma fabs_nonneg x : is_nan x = false -> (0 <=? abs x) = true.
Proof.
  rewrite is_nan_rank, FloatAxioms.leb_spec, abs_spec, Prim2SF_zero.
  by destruct (Prim2SF x) as [[]|[]| |[]].
Qed.

Lemma leb_not_nan x y : (x <=? y) = true -> is_nan x = false /\ is_nan y = false.
Proof.
  rewrite !is_nan_rank. intros H. float_order.
Qed.

(** The sign may be applied before or after the division. *)
Lemma sign_mul_div v n d :
  (0 <? v) = true \/ (v <? 0) = true ->
  sign v * n / d = sign v * (n / d).
Proof.
  intros Hv. unfold sign. destruct Hv as [Hv|Hv].
  - assert ((v <? 0) = false) as -> by float_order. rewrite Hv.
    by rewrite !fmul_one_l.
  - rewrite Hv. by rewrite !fmul_neg_one_l, fdiv_opp_l.
Qed.

Lemma _apply_deadzone_eq v d :
  is_nan v = false -> (0 <=? d) = true -> (d <? 1) = true ->
  _apply_deadzone v d = Ok (deadzone_shaped v d) /\
  ((abs v <=? d) = false ->
   deadzone_shaped v d = sign v * ((abs v - d) / (1 - d))).
Proof.
  intros Hv Hd0 Hd1. unfold _apply_deadzone, deadzone_shaped.
  destruct (abs v <=? d) eqn:Hle; [done|].
  pose proof (fsub_pos 1 d Hd0 Hd1) as Hden.
  pose proof (fabs_nonneg v Hv) as Habs.
  assert ((d <? abs v) = true) as Hlt by float_order.
  pose proof (fsub_pos (abs v) d Hd0 Hlt) as Hnum.
  unfold Py.truediv.
  assert ((1 - d =? 0) = false) as -> by float_order. cbn [rbind].
  pose proof (fdiv_signed_or_nan _ _
                (SFsigned_weaken _ _ (pos_signed _ Hnum))
                (SFsigned_weaken _ _ (pos_signed _ Hden))) as Hq.
  assert ((0 <? abs v) = true) as Hpos by float_order.
  pose proof (fabs_pos_cases v Hpos) as Hv'.
  rewrite (sign_mul_div v _ _ Hv'). split; [|done]. f_equal.
  unfold Py.math_copysign, sign.
  rewrite (fabs_signed _ Hq).
  destruct Hv' as [Hv'|Hv'].
  - rewrite (get_sign_pos v Hv'), Hv'.
    assert ((v <? 0) = false) as -> by float_order.
    by rewrite fmul_one_l.
  - rewrite (get_sign_neg v Hv'), Hv'. by rewrite fmul_neg_one_l.
Qed.

(** C2. For [v] in [-1, 1] and [d] in [0, 1) the deadzone function returns
    normally what the rule says: 0 when [|v| <= d], otherwise
    [sign(v) * (|v| - d) / (1 - d)], whichever of the product and the
    quotient is taken first.  For [v = 1], [d = 0.3] that is exactly 1.0, and
    at the boundary [|v| = d] it is exactly 0. *)
Theorem C2_deadzone :
  (forall v d,
     (-1 <=? v) = true -> (v <=? 1) = true ->
     (0 <=? d) = true -> (d <? 1) = true ->
     _apply_deadzone v d = Ok (deadzone_shaped v d) /\
     ((abs v <=? d) = true -> _apply_deadzone v d = Ok 0) /\
     ((abs v <=? d) = false ->
      _apply_deadzone v d = Ok (sign v * (abs v - d) / (1 - d)) /\
      _apply_deadzone v d = Ok (sign v * ((abs v - d) / (1 - d)))) /\
     ((abs v =? d) = true -> _apply_deadzone v d = Ok 0)) /\
  _apply_deadzone 1 0.3 = Ok 1.
Proof.
  split; [|reflexivity].
  intros v d Hv1 Hv2 Hd0 Hd1.
  destruct (leb_not_nan _ _ Hv2) as [Hv _].
  destruct (_apply_deadzone_eq v d Hv Hd0 Hd1) as [Heq Hgroup].
  split_and!.
  - done.
  - intros Hle. unfold _apply_deadzone. by rewrite Hle.
  - intros Hle. rewrite <- (Hgroup Hle), Heq.
    unfold deadzone_shaped. by rewrite Hle.
  - intros Hb. unfold _apply_deadzone.
    assert ((abs v <=? d) = true) as -> by float_order. done.
Qed.

Lemma C2_witness :
  _apply_deadzone (-0.5) 0.3 = Ok (deadzone_shaped (-0.5) 0.3) /\
  _apply_deadzone 0.3 0.3 = Ok 0.
Proof.
  destruct (proj1 C2_deadzone (-0.5) 0.3) as (H1 & _ & _ & _); [reflexivity..|].
  destruct (proj1 C2_deadzone 0.3 0.3) as (_ & _ & _ & H2); [reflexivity..|].
  exact (conj H1 (H2 eq_refl)).
Defined.

#[local] Close Scope float_scope.

(** ** The velocity curve *)

#[local] Open Scope float_scope.

Lemma _calculate_motion_eq x y M a s :
  _calculate_motion x y M a s =
  Ok (if 0 <? magnitude x y
      then ((x / magnitude x y * new_speed (magnitude x y) M a s,
             y / magnitude x y * new_speed (magnitude x y) M a s),
            new_speed (magnitude x y) M a s)
      else ((0, 0), 0)).
Proof.
  unfold _calculate_motion, Py.math_sqrt.
  rewrite sum_squares_not_neg. cbn [rbind]. fold (magnitude x y).
  destruct (0 <? magnitude x y) eqn:Hm; [|done].
  unfold Py.truediv.
  assert ((magnitude x y =? 0) = false) as -> by float_order.
  reflexivity.
Qed.

Lemma magnitude_signed x y :
  is_nan x = false -> is_nan y = false ->
  SFsigned false (Prim2SF (magnitude x y)) = true.
Proof. intros Hx Hy. by apply sqrt_signed, sum_squares_signed. Qed.

Lemma magnitude_cases x y :
  (0 <? magnitude x y) = true \/
  ((0 <? magnitude x y) = false /\ (magnitude x y =? 0) = true) \/
  ((0 <? magnitude x y) = false /\ (magnitude x y =? 0) = false /\
   is_nan (magnitude x y) = true).
Proof.
  apply signed_or_nan_cases, sqrt_signed_or_nan, sum_squares_signed_or_nan.
Qed.

Lemma _calculate_motion_curve x y M a s :
  is_nan x = false -> is_nan y = false ->
  _calculate_motion x y M a s = Ok (velocity_curve x y M a s).
Proof.
  intros Hx Hy. rewrite _calculate_motion_eq. f_equal.
  unfold velocity_curve. fold (magnitude x y).
  pose proof (SFsigned_rank _ (magnitude_signed x y Hx Hy)) as Hnan.
  apply is_nan_rank in Hnan.
  destruct (magnitude_cases x y) as [Hm|[[Hm Hz]|(_ & _ & Hn)]]; [| |congruence].
  - rewrite Hm.
    assert ((magnitude x y =? 0) = false) as -> by float_order.
    unfold new_speed, target_speed. by rewrite (fmul_comm 2 a).
  - by rewrite Hm, Hz.
Qed.

Lemma speed_after_app M a l1 l2 s :
  speed_after (l1 ++ l2) M a s =
  rbind (speed_after l1 M a s) (speed_after l2 M a).
Proof.
  revert s. induction l1 as [|[x y] l1 IH]; intros s; [done|].
  cbn [app speed_after].
  destruct (_calculate_motion x y M a s) as [r|e]; [|done]. cbn [rbind]. apply IH.
Qed.

Lemma full_speed_stays n :
  speed_after (replicate n (1, 0)) 20 0.4 20 = Ok 20.
Proof. induction n as [|n IH]; [done|]. cbn [replicate speed_after]. exact IH. Qed.

Lemma full_push_plateau n :
  speed_after (replicate (51 + n) (1, 0)) 20 0.4 0 = Ok 20.
Proof.
  rewrite replicate_add, speed_after_app.
  replace (speed_after (replicate 51 (1, 0)) 20 0.4 0) with (Ok 20)
    by (by vm_compute).
  apply full_speed_stays.
Qed.

Lemma full_push_nondecreasing n s s' :
  speed_after (replicate n (1, 0)) 20 0.4 0 = Ok s ->
  speed_after (replicate (S n) (1, 0)) 20 0.4 0 = Ok s' ->
  (s <=? s') = true.
Proof.
  destruct (le_lt_dec 51 n) as [Hle|Hlt].
  - replace n with (51 + (n - 51))%nat by lia.
    replace (S (51 + (n - 51)))%nat with (51 + S (n - 51))%nat by lia.
    rewrite !full_push_plateau. by intros [= <-] [= <-].
  - do 51 (destruct n as [|n];
           [vm_compute; by intros [= <-] [= <-]|]).
    lia.
Qed.

(** C1, as amended.  For stick positions that are numbers, the velocity
    curve returns what the rule says: velocity (0, 0) and speed 0 when the
    magnitude is 0, otherwise the unit vector scaled by the new speed, the
    new speed being [min(target, s + a)] when [target > s] and
    [max(target, s - 2a)] otherwise, with [target = min(m * M, M)].  With
    maximum speed 20, acceleration 0.4, speed 0 and the stick held at full
    magnitude, the speeds of the first 10 ticks never decrease and the 10th
    is 3.9999999999999996, the binary64 sum of ten steps of 0.4, just below
    4.0; at every tick the speed is at least that of the tick before, and
    from the 51st tick on it is the maximum, 20. *)
Theorem C1_velocity_curve :
  (forall x y M a s,
     is_nan x = false -> is_nan y = false ->
     _calculate_motion x y M a s = Ok (velocity_curve x y M a s)) /\
  speeds 10 1 0 20 0.4 0 =
    [0.4; 0.8; 1.2000000000000002; 1.6; 2; 2.4; 2.8;
     3.1999999999999997; 3.5999999999999996; 3.9999999999999996] /\
  speed_after (replicate 10 (1, 0)) 20 0.4 0 = Ok 3.9999999999999996 /\
  left_speed (ctl (_input_listener
                     (replicate 10 (snapshot (full_on 0) released))
                     (sw (booted default_config)))) = 3.9999999999999996 /\
  nondecreasing (0 :: speeds 60 1 0 20 0.4 0) = true /\
  (3.9999999999999996 <? 4) = true /\
  next_up 3.9999999999999996 = 4 /\
  (forall n, speed_after (replicate (51 + n) (1, 0)) 20 0.4 0 = Ok 20) /\
  (forall n s s',
     speed_after (replicate n (1, 0)) 20 0.4 0 = Ok s ->
     speed_after (replicate (S n) (1, 0)) 20 0.4 0 = Ok s' ->
     (s <=? s') = true).
Proof.
  split; [exact _calculate_motion_curve|].
  split_and!; try by vm_compute.
  - exact full_push_plateau.
  - exact full_push_nondecreasing.
Qed.

Lemma C1_witness :
  _calculate_motion 1 0 20 0.4 0 = Ok ((0.4, 0), 0.4).
Proof.
  rewrite (proj1 C1_velocity_curve 1 0 20 0.4 0) by reflexivity.
  reflexivity.
Defined.

(** C1, as stated, fails: after 10 ticks at full magnitude from speed 0,
    with maximum speed 20 and acceleration 0.4, the speed is not 4.0. *)
Lemma C1_counterexample :
  speed_after (replicate 10 (1, 0)) 20 0.4 0 <> Ok 4.
Proof.
  intros H.
  assert (match speed_after (replicate 10 (1, 0)) 20 0.4 0 with
          | Ok s => s =? 4
          | Raise _ => false
          end = true) as Heq by (by rewrite H).
  vm_compute in Heq. discriminate.
Qed.

(** ** The speed invariant *)

Lemma flt_le x y : (x <? y) = true -> (x <=? y) = true.
Proof. intros H. float_order. Qed.

Lemma flt_refl_r x y : (x <? y) = true -> (y <=? y) = true.
Proof. intros H. float_order. Qed.

Lemma fle_trans x y z :
  (x <=? y) = true -> (y <=? z) = true -> (x <=? z) = true.
Proof. intros H1 H2. float_order. Qed.

Lemma flt_le_trans x y z :
  (x <? y) = true -> (y <=? z) = true -> (x <=? z) = true.
Proof. intros H1 H2. float_order. Qed.

Lemma fle_lt_trans x y z :
  (x <=? y) = true -> (y <? z) = true -> (x <=? z) = true.
Proof. intros H1 H2. float_order. Qed.

(** Between two numbers, [x < y] failing means [y <= x]. *)
Lemma fnlt_le x y a b :
  (x <? y) = false -> (a <? x) = true -> (b <=? y) = true -> (y <=? x) = true.
Proof. intros H1 H2 H3. float_order. Qed.

Lemma target_speed_bounds m M :
  (0 <? m) = true -> (0 <? M) = true ->
  (0 <=? target_speed m M) = true /\ (target_speed m M <=? M) = true.
Proof.
  intros Hm HM. pose proof (fmul_pos m M Hm HM) as Hprod.
  unfold target_speed, Py.min.
  destruct (M <? m * M) eqn:Hlt; split.
  - by apply flt_le.
  - by apply (flt_refl_r 0).
  - done.
  - by apply (fnlt_le M (m * M) 0 0).
Qed.

Lemma new_speed_bounds m M a s :
  (0 <? m) = true -> (0 <? M) = true -> (0 <? a) = true ->
  (0 <=? s) = true -> (s <=? M) = true ->
  (0 <=? new_speed m M a s) = true /\ (new_speed m M a s <=? M) = true.
Proof.
  intros Hm HM Ha Hs0 HsM.
  destruct (target_speed_bounds m M Hm HM) as [Ht0 HtM].
  unfold new_speed, Py.min, Py.max.
  destruct (s <? target_speed m M) eqn:Hbranch.
  - destruct (s + a <? target_speed m M) eqn:Hcap; [|by split].
    split.
    + by apply fadd_nonneg_pos.
    + by apply (flt_le_trans _ (target_speed m M)).
  - destruct (target_speed m M <? s - a * 2) eqn:Hfloor; [|by split].
    pose proof (fmul_pos a 2 Ha eq_refl) as Ha2.
    pose proof (fsub_le s (a * 2) _ Hs0 Ha2 Hfloor) as Hsub.
    split.
    + by apply (fle_lt_trans _ (target_speed m M)).
    + by apply (fle_trans _ s).
Qed.

Lemma _calculate_motion_speed x y M a s :
  (0 <? M) = true -> (0 <? a) = true ->
  (0 <=? s) = true -> (s <=? M) = true ->
  exists v s',
    _calculate_motion x y M a s = Ok (v, s') /\
    (0 <=? s') = true /\ (s' <=? M) = true.
Proof.
  intros HM Ha Hs0 HsM. rewrite _calculate_motion_eq.
  destruct (0 <? magnitude x y) eqn:Hm.
  - eexists _, _. split; [reflexivity|]. by apply new_speed_bounds.
  - eexists _, _. split; [reflexivity|]. split; [done|by apply flt_le].
Qed.

Lemma speed_after_bounds M a inputs : forall s,
  (0 <? M) = true -> (0 <? a) = true ->
  (0 <=? s) = true -> (s <=? M) = true ->
  exists s',
    speed_after inputs M a s = Ok s' /\
    (0 <=? s') = true /\ (s' <=? M) = true.
Proof.
  induction inputs as [|[x y] inputs IH]; intros s HM Ha Hs0 HsM.
  - by exists s.
  - destruct (_calculate_motion_speed x y M a s HM Ha Hs0 HsM)
      as (v & s1 & Heq & H0 & H1).
    cbn [speed_after]. rewrite Heq. cbn [rbind snd]. by apply IH.
Qed.

#[local] Close Scope float_scope.

(** *** The invariant through the methods *)

Lemma keeps_ret {A} P (a : A) (Q : A -> Prop) : Q a -> keeps P (ret a) Q.
Proof. intros HQ w HP. cbn. split; [done|]. by intros a' [= <-]. Qed.

Lemma keeps_bind {A B} P (m : M A) (k : A -> M B) Q R :
  keeps P m Q -> (forall a, Q a -> keeps P (k a) R) -> keeps P (bind m k) R.
Proof.
  intros Hm Hk w HP. destruct (Hm w HP) as [HP' HQ]. unfold bind.
  destruct (m w) as [[a|e] w'] eqn:Hmw; cbn [fst snd] in *.
  - apply (Hk a (HQ a eq_refl) w' HP').
  - split; [done|]. intros b [=].
Qed.

Lemma keeps_lift {A} P (r : result A) : keeps P (lift r) (fun a => r = Ok a).
Proof. intros w HP. cbn. split; [done|]. by intros a ->. Qed.

Lemma keeps_get P : keeps P get P.
Proof. intros w HP. cbn. split; [done|]. by intros a [= <-]. Qed.

Lemma keeps_emit P e : keeps P (emit e) (fun _ => True).
Proof. by intros w HP. Qed.

Lemma keeps_spawn P t : keeps P (spawn t) (fun _ => True).
Proof. by intros w HP. Qed.

Lemma keeps_modify P f :
  (forall c, P c -> P (f c)) -> keeps P (modify f) (fun _ => True).
Proof. intros Hf w HP. cbn. split; [by apply Hf|done]. Qed.

Lemma keeps_time_sleep P r : keeps P (time_sleep r) (fun _ => True).
Proof. unfold time_sleep. destruct (_ <=? _)%float; by intros w HP. Qed.

Ltac keeps_step :=
  match goal with
  | |- keeps _ (bind _ _) _ => eapply keeps_bind; [|intros ? ?]
  | |- keeps _ get _ => apply keeps_get
  | |- keeps _ (lift _) _ => apply keeps_lift
  | |- keeps _ (emit _) _ => apply keeps_emit
  | |- keeps _ (mouse_click _ _) _ => apply keeps_emit
  | |- keeps _ (mouse_move _ _) _ => apply keeps_emit
  | |- keeps _ (mouse_scroll _) _ => apply keeps_emit
  | |- keeps _ (spawn _) _ => apply keeps_spawn
  | |- keeps _ (time_sleep _) _ => apply keeps_time_sleep
  | |- keeps _ (ret _) _ => by apply keeps_ret
  | |- keeps _ (if ?b then _ else _) _ => destruct b
  | |- keeps _ (modify _) _ =>
      apply keeps_modify; intros ? [? ?]; split; [done|assumption]
  end.

Section Invariant.

Variable cfg : GamepadConfig.
Hypothesis Hcfg : positive_config cfg.

#[local] Abbreviation P := (speed_invariant cfg).

Lemma keeps_stop : keeps P stop (fun _ => True).
Proof. unfold stop. repeat keeps_step. Qed.

Lemma keeps_handle_button dev key button :
  keeps P (handle_button dev key button) (fun _ => True).
Proof. unfold handle_button. repeat keeps_step. Qed.

Lemma keeps__handle_buttons dev : keeps P (_handle_buttons dev) (fun _ => True).
Proof.
  unfold _handle_buttons.
  repeat (keeps_step || apply keeps_handle_button).
Qed.

Lemma keeps_handle_scroll_direction pressed dir :
  keeps P (handle_scroll_direction pressed dir) (fun _ => True).
Proof. unfold handle_scroll_direction. repeat keeps_step. Qed.

Lemma keeps__handle_scroll dev : keeps P (_handle_scroll dev) (fun _ => True).
Proof.
  unfold _handle_scroll.
  repeat (keeps_step || apply keeps_handle_scroll_direction).
Qed.

Lemma keeps_mouse_mover_body : keeps P mouse_mover_body (fun _ => True).
Proof. unfold mouse_mover_body. repeat keeps_step. Qed.

Lemma keeps_scroll_thread_step t :
  keeps P (scroll_thread_step t) (fun _ => True).
Proof. unfold scroll_thread_step. destruct (pc t); repeat keeps_step. Qed.

Lemma keeps__read_analog_inputs dev :
  keeps P (_read_analog_inputs dev) (fun _ => True).
Proof.
  destruct Hcfg as (HlM & Hla & HrM & Hra).
  unfold _read_analog_inputs.
  eapply keeps_bind; [apply keeps_get|]. intros c [Hc (Hl0 & Hl1 & _ & _)].
  rewrite Hc in *.
  eapply keeps_bind; [apply keeps_lift|]. intros vlx _.
  eapply keeps_bind; [apply keeps_lift|]. intros lx _.
  eapply keeps_bind; [apply keeps_lift|]. intros vly _.
  eapply keeps_bind; [apply keeps_lift|]. intros ly _.
  eapply keeps_bind; [apply keeps_lift|]. intros l Hl.
  destruct (_calculate_motion_speed lx ly _ _ _ HlM Hla Hl0 Hl1)
    as (v & s' & Heq & Hs0 & Hs1).
  rewrite Heq in Hl. injection Hl as <-.
  eapply keeps_bind.
  { apply keeps_modify. intros c' [Hc' (_ & _ & Hr0 & Hr1)].
    split; [exact Hc'|]. unfold speeds_bounded in *. cbn. by rewrite Hc' in *. }
  intros _ _.
  eapply keeps_bind; [apply keeps_get|]. intros c1 [Hc1 (_ & _ & Hr0 & Hr1)].
  rewrite Hc1 in *.
  eapply keeps_bind; [apply keeps_lift|]. intros vrx _.
  eapply keeps_bind; [apply keeps_lift|]. intros rx _.
  eapply keeps_bind; [apply keeps_lift|]. intros vry _.
  eapply keeps_bind; [apply keeps_lift|]. intros ry _.
  eapply keeps_bind; [apply keeps_lift|]. intros r Hr.
  destruct (_calculate_motion_speed rx ry _ _ _ HrM Hra Hr0 Hr1)
    as (v2 & s2 & Heq2 & Hs20 & Hs21).
  rewrite Heq2 in Hr. injection Hr as <-.
  apply keeps_modify. intros c' [Hc' (Hl0' & Hl1' & _ & _)].
  split; [exact Hc'|]. unfold speeds_bounded in *. cbn. by rewrite Hc' in *.
Qed.

Lemma keeps_input_listener_body dev :
  keeps P (input_listener_body dev) (fun _ => True).
Proof.
  unfold input_listener_body.
  repeat (keeps_step || apply keeps__read_analog_inputs
          || apply keeps__handle_buttons || apply keeps__handle_scroll).
Qed.

Lemma loop_iteration_invariant source body w :
  keeps P body (fun _ => True) ->
  P (ctl w) -> P (ctl (snd (loop_iteration source body w))).
Proof.
  intros Hbody HP. unfold loop_iteration.
  destruct (running (ctl w)); [|done].
  destruct (Hbody w HP) as [HP' _].
  destruct (body w) as [[[]|e] w']; [done|]. cbn [snd] in *.
  assert (keeps P (let* _ := emit (LogError source e) in stop)%M (fun _ => True))
    as Hfail by (repeat (keeps_step || apply keeps_stop)).
  apply (Hfail w' HP').
Qed.

Lemma step_invariant a sys :
  P (ctl (sw sys)) -> P (ctl (sw (step a sys))).
Proof.
  intros HP. destruct a as [dev| |i]; cbn [step].
  - destruct (listener_alive sys); [|done]. cbn [sw].
    apply loop_iteration_invariant; [apply keeps_input_listener_body|done].
  - destruct (mover_alive sys); [|done]. cbn [sw].
    apply loop_iteration_invariant; [apply keeps_mouse_mover_body|done].
  - destruct (tasks (sw sys) !! i) as [t|]; [|done]. cbn [sw set_task ctl].
    apply (keeps_scroll_thread_step t (sw sys) HP).
Qed.

Lemma run_invariant sched : forall sys,
  P (ctl (sw sys)) -> P (ctl (sw (run sched sys))).
Proof.
  induction sched as [|a sched IH]; intros sys HP; [done|].
  cbn. change (foldl _ ?s sched) with (run sched s).
  by apply IH, step_invariant.
Qed.

Lemma booted_invariant : P (ctl (sw (booted cfg))).
Proof.
  destruct Hcfg as (HlM & Hla & HrM & Hra).
  split; [reflexivity|]. unfold speeds_bounded. cbn.
  split_and!; try reflexivity; by apply flt_le.
Qed.

End Invariant.

(** C5. With positive maximum speeds and acceleration steps, every
    application of the velocity curve to a speed in [0, max] returns
    normally with a speed in [0, max]; so the speed persisted for a stick
    after any sequence of ticks from speed 0 lies in [0, max], and in every
    state the started controller reaches, however its threads are
    scheduled, both persisted speeds lie between 0 and their stick's
    configured maximum. *)
Theorem C5_speed_invariant (cfg : GamepadConfig) :
  positive_config cfg ->
  (forall x y s,
     (0 <=? s)%float = true -> (s <=? left_max_speed cfg)%float = true ->
     exists v s',
       _calculate_motion x y (left_max_speed cfg) (left_acceleration cfg) s
         = Ok (v, s') /\
       (0 <=? s')%float = true /\ (s' <=? left_max_speed cfg)%float = true) /\
  (forall x y s,
     (0 <=? s)%float = true -> (s <=? right_max_speed cfg)%float = true ->
     exists v s',
       _calculate_motion x y (right_max_speed cfg) (right_acceleration cfg) s
         = Ok (v, s') /\
       (0 <=? s')%float = true /\ (s' <=? right_max_speed cfg)%float = true) /\
  (forall inputs,
     exists s',
       speed_after inputs (left_max_speed cfg) (left_acceleration cfg) 0 = Ok s' /\
       (0 <=? s')%float = true /\ (s' <=? left_max_speed cfg)%float = true) /\
  (forall sched,
     config (ctl (sw (run sched (booted cfg)))) = cfg /\
     speeds_bounded (ctl (sw (run sched (booted cfg))))).
Proof.
  intros Hcfg. pose proof Hcfg as (HlM & Hla & HrM & Hra). split_and!.
  - intros x y s. by apply _calculate_motion_speed.
  - intros x y s. by apply _calculate_motion_speed.
  - intros inputs. apply speed_after_bounds; try done. by apply flt_le.
  - intros sched. apply (run_invariant cfg Hcfg), booted_invariant, Hcfg.
Qed.

Lemma C5_witness :
  speeds_bounded
    (ctl (sw (run [ListenerTick (snapshot (full_on 0) released);
                   MoverTick;
                   ListenerTick (snapshot centred released)]
                (booted default_config)))).
Proof.
  apply (C5_speed_invariant default_config).
  by vm_compute.
Defined.
